(** * qqwrydat: the geoip.dat generator ([generate_geoip_dat.js])

    A shallow embedding of the generator script and the proofs of its
    documented properties.

    Data model.
    - A JavaScript string is its sequence of UTF-16 code units
      ([jsstring = list Z]); [length], [substring] and [split] count code
      units, exactly as the engine does.
    - A [Buffer] is a list of bytes ([list Z], each in [0, 256)).
    - Exceptions are explicit: a computation returns [Ok v] or [Throw e].
    - The functions the script takes from its host (the engine's Unicode
      upper-casing, the [pinyin] package, [path.extname], the text of a
      built-in function) are the fields of a [Host] record; every theorem
      holds for every host. *)

From Stdlib Require Import String Ascii ZArith List Bool Lia.
From Stdlib Require DecimalString.
Import ListNotations.
Local Open Scope Z_scope.

(* ================================================================== *)
(** ** Strings, bytes and exceptions *)

Definition jsstring := list Z.
Definition bytes := list Z.

(** The exceptions that can arise: a number out of the range of a buffer
    write, a call on [undefined], a file read or write that fails. *)
Inductive jserror := RangeError | TypeError | SystemError.

Inductive result (A : Type) :=
| Ok (a : A)
| Throw (e : jserror).
Arguments Ok {A} a.
Arguments Throw {A} e.

Definition bind {A B} (r : result A) (k : A -> result B) : result B :=
  match r with
  | Ok a => k a
  | Throw e => Throw e
  end.

Notation "x <- r ;; k" := (bind r (fun x => k))
  (at level 61, r at next level, right associativity).

(** *** UTF-8 *)

(** Decoder state while inside a multi-byte sequence: the code point bits
    read so far, the number of continuation bytes still needed and the
    range allowed for the next byte. *)
Record dstate := mkD { d_cp : Z; d_need : nat; d_lo : Z; d_hi : Z }.

Definition between (lo x hi : Z) : bool := (lo <=? x) && (x <=? hi).

(** A byte met outside a sequence. *)
Definition utf8_lead (b : Z) : list Z * option dstate :=
  if b <=? 0x7F then ([b], None)
  else if between 0xC2 b 0xDF then
    ([], Some (mkD (Z.land b 0x1F) 1 0x80 0xBF))
  else if between 0xE0 b 0xEF then
    ([], Some (mkD (Z.land b 0xF) 2
                   (if b =? 0xE0 then 0xA0 else 0x80)
                   (if b =? 0xED then 0x9F else 0xBF)))
  else if between 0xF0 b 0xF4 then
    ([], Some (mkD (Z.land b 0x7) 3
                   (if b =? 0xF0 then 0x90 else 0x80)
                   (if b =? 0xF4 then 0x8F else 0xBF)))
  else ([0xFFFD], None).

(** Bytes to code points, an ill-formed sequence giving U+FFFD. *)
Fixpoint utf8_decode_from (st : option dstate) (bs : bytes) : list Z :=
  match bs with
  | [] => match st with None => [] | Some _ => [0xFFFD] end
  | b :: rest =>
    match st with
    | None =>
      let '(out, st') := utf8_lead b in out ++ utf8_decode_from st' rest
    | Some s =>
      if between (d_lo s) b (d_hi s) then
        let c := Z.lor (Z.shiftl (d_cp s) 6) (Z.land b 0x3F) in
        match d_need s with
        | S (S n) => utf8_decode_from (Some (mkD c (S n) 0x80 0xBF)) rest
        | _ => c :: utf8_decode_from None rest
        end
      else
        let '(out, st') := utf8_lead b in
        0xFFFD :: out ++ utf8_decode_from st' rest
    end
  end.

(** A code point as UTF-16 code units. *)
Definition utf16_units (cp : Z) : jsstring :=
  if cp <? 0x10000 then [cp]
  else let c := cp - 0x10000 in
       [0xD800 + Z.shiftr c 10; 0xDC00 + Z.land c 0x3FF].

(** [buffer.toString('utf-8')], as [fs.readFileSync(file, 'utf-8')]
    applies it to the bytes of the file. *)
Definition utf8_decode (bs : bytes) : jsstring :=
  flat_map utf16_units (utf8_decode_from None bs).

Definition utf8_of_cp (c : Z) : bytes :=
  if c <? 0x80 then [c]
  else if c <? 0x800 then
    [Z.lor 0xC0 (Z.shiftr c 6); Z.lor 0x80 (Z.land c 0x3F)]
  else if c <? 0x10000 then
    [Z.lor 0xE0 (Z.shiftr c 12);
     Z.lor 0x80 (Z.land (Z.shiftr c 6) 0x3F);
     Z.lor 0x80 (Z.land c 0x3F)]
  else
    [Z.lor 0xF0 (Z.shiftr c 18);
     Z.lor 0x80 (Z.land (Z.shiftr c 12) 0x3F);
     Z.lor 0x80 (Z.land (Z.shiftr c 6) 0x3F);
     Z.lor 0x80 (Z.land c 0x3F)].

Definition isHighSurrogate (c : Z) : bool := between 0xD800 c 0xDBFF.
Definition isLowSurrogate (c : Z) : bool := between 0xDC00 c 0xDFFF.

Definition replacement : bytes := [0xEF; 0xBF; 0xBD].

(** [Buffer.from(str, 'utf-8')]: a surrogate pair is one code point, a
    lone surrogate is written as U+FFFD. *)
Fixpoint utf8_encode (s : jsstring) : bytes :=
  match s with
  | [] => []
  | c :: rest =>
    if isHighSurrogate c then
      match rest with
      | d :: rest' =>
        if isLowSurrogate d then
          utf8_of_cp (0x10000 + Z.shiftl (c - 0xD800) 10 + (d - 0xDC00))
            ++ utf8_encode rest'
        else replacement ++ utf8_encode rest
      | [] => replacement
      end
    else if isLowSurrogate c then replacement ++ utf8_encode rest
    else utf8_of_cp c ++ utf8_encode rest
  end.

(** String literals of the script: the literal is written here as it is in
    the source and read as UTF-16. *)
Definition js (s : string) : jsstring :=
  utf8_decode (map (fun a => Z.of_N (N_of_ascii a)) (list_ascii_of_string s)).
Arguments js s%_string.

(** *** String primitives *)

Fixpoint str_eqb (a b : jsstring) : bool :=
  match a, b with
  | [], [] => true
  | x :: a', y :: b' => (x =? y) && str_eqb a' b'
  | _, _ => false
  end.

Definition jslength (s : jsstring) : Z := Z.of_nat (length s).

(** [s.substring(0, n)]. *)
Definition substring0 (n : nat) (s : jsstring) : jsstring := firstn n s.

(** WhiteSpace and LineTerminator code units, as [trim] and [parseInt]
    strip them. *)
Definition isWhiteSpace (c : Z) : bool :=
  between 9 c 13 || (c =? 32) || (c =? 0xA0) || (c =? 0x1680)
  || between 0x2000 c 0x200A || (c =? 0x2028) || (c =? 0x2029)
  || (c =? 0x202F) || (c =? 0x205F) || (c =? 0x3000) || (c =? 0xFEFF).

Fixpoint dropWhile {A} (p : A -> bool) (l : list A) : list A :=
  match l with
  | [] => []
  | x :: r => if p x then dropWhile p r else l
  end.

Fixpoint takeWhile {A} (p : A -> bool) (l : list A) : list A :=
  match l with
  | [] => []
  | x :: r => if p x then x :: takeWhile p r else []
  end.

Definition trimStart (s : jsstring) : jsstring := dropWhile isWhiteSpace s.
Definition trimEnd (s : jsstring) : jsstring :=
  rev (dropWhile isWhiteSpace (rev s)).
Definition trim (s : jsstring) : jsstring := trimEnd (trimStart s).

(** [s.split(sep)] for a separator of one code unit. *)
Fixpoint split (sep : Z) (s : jsstring) : list jsstring :=
  match s with
  | [] => [[]]
  | c :: r =>
    if c =? sep then [] :: split sep r
    else match split sep r with
         | [] => [[c]]
         | h :: t => (c :: h) :: t
         end
  end.

Definition TAB : Z := 9.
Definition LF : Z := 10.
Definition DOT : Z := 46.
Definition PIPE : Z := 124.

(** The decimal text of a number in a template literal. *)
Definition decimal (n : nat) : jsstring :=
  js (DecimalString.NilEmpty.string_of_uint (Nat.to_uint n)).

(* ================================================================== *)
(** ** Numbers and buffers *)

(** The result of [parseInt]: an integer-valued number or NaN. *)
Inductive number := NaN | Num (z : Z).

(** The double nearest to a natural number (ties to even).  Integers
    below 2^53 are exact; the others keep 53 significant bits. *)
Definition roundToDouble (n : Z) : Z :=
  if n <? 2 ^ 53 then n
  else
    let e := Z.log2 n - 52 in
    let q := Z.shiftr n e in
    let r := n - Z.shiftl q e in
    let half := 2 ^ (e - 1) in
    let q' := if (half <? r) || ((r =? half) && Z.odd q) then q + 1 else q in
    Z.shiftl q' e.

Definition digitValue (c : Z) : option Z :=
  if between 48 c 57 then Some (c - 48)
  else if between 97 c 102 then Some (c - 87)
  else if between 65 c 70 then Some (c - 55)
  else None.

Definition isRadixDigit (radix c : Z) : bool :=
  match digitValue c with
  | Some d => d <? radix
  | None => false
  end.

Definition digitsValue (radix : Z) (ds : jsstring) : Z :=
  fold_left (fun acc c =>
               match digitValue c with
               | Some d => acc * radix + d
               | None => acc
               end) ds 0.

(** [parseInt(s)] without a radix: leading white space and a sign are
    skipped, [0x] selects radix 16, the longest prefix of digits is read
    and whatever follows is ignored.  No digit at all gives NaN.  (A value
    beyond the largest double is Infinity in the engine; it is kept here as
    the rounded integer, which [toUint8] also sends to 0.) *)
Definition parseInt (input : jsstring) : number :=
  let s := trimStart input in
  let sign := match s with
              | c :: _ => if c =? 45 then -1 else 1
              | [] => 1
              end in
  let s := match s with
           | c :: r => if (c =? 43) || (c =? 45) then r else s
           | [] => s
           end in
  let '(radix, s) :=
    match s with
    | c0 :: c1 :: r =>
      if (c0 =? 48) && ((c1 =? 120) || (c1 =? 88)) then (16, r) else (10, s)
    | _ => (10, s)
    end in
  match takeWhile (isRadixDigit radix) s with
  | [] => NaN
  | ds => Num (sign * roundToDouble (digitsValue radix ds))
  end.

(** The conversion applied when a number is stored in a [Uint8Array]. *)
Definition toUint8 (v : number) : Z :=
  match v with
  | NaN => 0
  | Num z => z mod 256
  end.

(** [Buffer.alloc(n)]. *)
Definition Buffer_alloc (n : nat) : bytes := repeat 0 n.

(** [Buffer.concat(list)]. *)
Definition Buffer_concat (l : list bytes) : bytes := concat l.

(** [buf[i] = v]; a store outside the buffer is ignored. *)
Fixpoint buf_set (buf : bytes) (i : nat) (v : number) : bytes :=
  match buf, i with
  | [], _ => []
  | _ :: r, O => toUint8 v :: r
  | b :: r, S j => b :: buf_set r j v
  end.

(** [buf.fill(0)]. *)
Definition buf_fill0 (buf : bytes) : bytes := map (fun _ => 0) buf.

(** [buf.writeUInt32LE(value, offset)]: range errors are thrown, then the
    four bytes are stored, least significant first. *)
Definition writeUInt32LE (buf : bytes) (value : Z) (offset : nat)
  : result bytes :=
  if (value <? 0) || (0xFFFFFFFF <? value) then Throw RangeError
  else if (length buf <? offset + 4)%nat then Throw RangeError
  else
    let buf := buf_set buf offset (Num value) in
    let value := Z.shiftr value 8 in
    let buf := buf_set buf (offset + 1) (Num value) in
    let value := Z.shiftr value 8 in
    let buf := buf_set buf (offset + 2) (Num value) in
    let value := Z.shiftr value 8 in
    Ok (buf_set buf (offset + 3) (Num value)).

(** [buf.writeUInt8(value)], at offset 0. *)
Definition writeUInt8 (buf : bytes) (value : Z) : result bytes :=
  if (value <? 0) || (0xFF <? value) then Throw RangeError
  else if (length buf <? 1)%nat then Throw RangeError
  else Ok (buf_set buf 0 (Num value)).

(* ================================================================== *)
(** ** The host *)

(** What the script calls and does not define. *)
Class Host := {
  (** [String.prototype.toUpperCase], the Unicode upper-casing. *)
  toUpperCase : jsstring -> jsstring;
  (** [pinyin(text, {style: STYLE_NORMAL, heteronym: false, segment: true})]
      of the [pinyin] package: an array of arrays of strings. *)
  pinyin : jsstring -> list (list jsstring);
  (** [path.extname]. *)
  extname : jsstring -> jsstring;
  (** The string a template literal makes of the built-in object that
      [Object.prototype] holds under a property name. *)
  builtinToString : jsstring -> jsstring
}.

(** A value read from an object used as a table. *)
Inductive jsval :=
| VUndefined
| VStr (s : jsstring)
| VBuiltin (key : jsstring).

Definition truthy (v : jsval) : bool :=
  match v with
  | VUndefined => false
  | VStr [] => false
  | VStr _ => true
  | VBuiltin _ => true
  end.

(** [a || b] *)
Definition jsOr (a b : jsval) : jsval := if truthy a then a else b.

(** [a || b] on strings. *)
Definition strOr (a b : jsstring) : jsstring :=
  match a with
  | [] => b
  | _ => a
  end.

(** [`${v}`] *)
Definition toStr `{Host} (v : jsval) : jsstring :=
  match v with
  | VUndefined => js "undefined"
  | VStr s => s
  | VBuiltin k => builtinToString k
  end.

(** The properties every object literal inherits from [Object.prototype]. *)
Definition objectPrototypeKeys : list jsstring :=
  [ js "constructor"; js "__defineGetter__"; js "__defineSetter__";
    js "hasOwnProperty"; js "__lookupGetter__"; js "__lookupSetter__";
    js "isPrototypeOf"; js "propertyIsEnumerable"; js "toString";
    js "valueOf"; js "__proto__"; js "toLocaleString" ].

Fixpoint assoc {V} (k : jsstring) (m : list (jsstring * V)) : option V :=
  match m with
  | [] => None
  | (k', v) :: r => if str_eqb k k' then Some v else assoc k r
  end.

(** [obj[key]] for an object literal [obj] with string values: an own
    property first, an inherited one next, [undefined] last. *)
Definition getProp (obj : list (jsstring * jsstring)) (key : jsstring)
  : jsval :=
  match assoc key obj with
  | Some v => VStr v
  | None => if existsb (str_eqb key) objectPrototypeKeys
            then VBuiltin key else VUndefined
  end.

(* ================================================================== *)
(** ** The script *)

(** *** The name table *)

(** The carrier entries of [pinyinMap]. *)
Definition carrierEntries : list (jsstring * jsstring) :=
  [ (js "电信", js "DX"); (js "联通", js "LT"); (js "移动", js "YD");
    (js "铁通", js "TT"); (js "华数", js "HS"); (js "未知", js "UN") ].

(** The region entries of [pinyinMap]. *)
Definition regionEntries : list (jsstring * jsstring) :=
  [ (js "北京", js "BJ"); (js "上海", js "SH"); (js "天津", js "TJ");
    (js "重庆", js "CQ"); (js "广东", js "GD"); (js "浙江", js "ZJ");
    (js "江苏", js "JS"); (js "山东", js "SD"); (js "福建", js "FJ");
    (js "安徽", js "AH"); (js "河南", js "HA"); (js "湖北", js "HB");
    (js "湖南", js "HN"); (js "江西", js "JX"); (js "四川", js "SC");
    (js "陕西", js "SN"); (js "山西", js "SX"); (js "辽宁", js "LN");
    (js "吉林", js "JL"); (js "黑龙江", js "HL"); (js "河北", js "HE");
    (js "台湾", js "TW"); (js "海南", js "HI"); (js "甘肃", js "GS");
    (js "宁夏", js "NX"); (js "青海", js "QH"); (js "新疆", js "XJ");
    (js "西藏", js "XZ"); (js "内蒙古", js "NM"); (js "广西", js "GX");
    (js "贵州", js "GZ"); (js "云南", js "YN"); (js "香港", js "HK");
    (js "澳门", js "MO") ].

(** One object holds both groups. *)
Definition pinyinMap : list (jsstring * jsstring) :=
  carrierEntries ++ regionEntries.

(** *** Code normalizer *)

Definition getStandardCountryCode (countryName : jsstring)
  : option jsstring :=
  if str_eqb countryName (js "中国") then Some (js "CN") else None.

Definition getStandardRegionCode `{Host} (regionName : jsstring) : jsval :=
  jsOr (getProp pinyinMap regionName)
       (VStr (toUpperCase (substring0 3 regionName))).

Definition getIspCode (ispName : jsstring) : jsval :=
  if 2 <=? jslength ispName then
    let prefix := substring0 2 ispName in
    jsOr (getProp pinyinMap prefix) (VStr (js "UN"))
  else if jslength ispName =? 1 then
    jsOr (getProp pinyinMap ispName) (VStr (js "UN"))
  else VStr (js "UN").

(** [pinyinArray.flat().join('')] *)
Definition getCityPinyin `{Host} (cityName : jsstring) : jsstring :=
  let pinyinArray := pinyin cityName in
  concat (concat pinyinArray).

Definition HYPHEN : jsstring := js "-".

(** The last two parameters have defaults: [None] is an omitted
    argument. *)
Definition createCountryCodes `{Host}
    (countryName regionName cityName : jsstring)
    (ipVersion ispDomain : option jsstring) : list jsstring :=
  let ipVersion := match ipVersion with Some v => v | None => js "4" end in
  let ispDomain := match ispDomain with Some v => v | None => js "未知" end in
  match getStandardCountryCode countryName with
  | None => []
  | Some _ =>
    let region := getStandardRegionCode regionName in
    let ispCode := getIspCode ispDomain in
    let simplifiedFormat :=
      ipVersion ++ HYPHEN ++ toStr ispCode ++ HYPHEN ++ toStr region in
    let countryCodes := [simplifiedFormat] in
    if negb (str_eqb cityName []) && negb (str_eqb cityName regionName) then
      let cityPinyin := getCityPinyin cityName in
      let fullFormat :=
        ipVersion ++ HYPHEN ++ toStr ispCode ++ HYPHEN ++ toStr region
                  ++ HYPHEN ++ cityPinyin in
      countryCodes ++ [fullFormat]
    else countryCodes
  end.

(** *** Record parser *)

Record GeoRecord := mkRecord {
  country_name : jsstring;
  region_name : jsstring;
  city_name : jsstring;
  isp_domain : jsstring
}.

(** [parts[i]] once the length has been checked. *)
Definition part (parts : list jsstring) (i : nat) : jsstring := nth i parts [].

Definition parseIpdbEntry (dataEntry : jsstring) : option GeoRecord :=
  let parts := split TAB dataEntry in
  if (length parts <? 4)%nat then None
  else Some (mkRecord (strOr (part parts 0) (js "未知"))
                      (strOr (part parts 1) (js "未知"))
                      (strOr (part parts 2) (part parts 1))
                      (strOr (part parts 3) (js "未知"))).

(** The text branch of the loop of [generateGeoipDat] (the [else] that
    splits the line on the pipe character). *)
Definition parseTextLine (line : jsstring) : option GeoRecord :=
  let parts := split PIPE (trim line) in
  if (length parts <? 4)%nat then None
  else
    let country := part parts 0 in
    let region := part parts 1 in
    let city := strOr (part parts 2) region in
    let ispDomain := strOr (part parts 3) (js "未知") in
    Some (mkRecord country region city ispDomain).

(** *** Binary encoder *)

Definition cidr : Type := jsstring * Z.

Definition writeString (str : jsstring) : result bytes :=
  let strBuffer := utf8_encode str in
  lenBuffer <- writeUInt32LE (Buffer_alloc 4) (jslength strBuffer) 0 ;;
  Ok (Buffer_concat [lenBuffer; strBuffer]).

Definition writeCidr (ip : jsstring) (prefixLen : Z) : result bytes :=
  let ipParts := split DOT ip in
  let ipBuffer := Buffer_alloc 4 in
  let ipBuffer :=
    if (length ipParts =? 4)%nat then
      let ipBuffer := buf_set ipBuffer 0 (parseInt (part ipParts 0)) in
      let ipBuffer := buf_set ipBuffer 1 (parseInt (part ipParts 1)) in
      let ipBuffer := buf_set ipBuffer 2 (parseInt (part ipParts 2)) in
      buf_set ipBuffer 3 (parseInt (part ipParts 3))
    else buf_fill0 ipBuffer in
  prefixBuffer <- writeUInt32LE (Buffer_alloc 4) prefixLen 0 ;;
  Ok (Buffer_concat [ipBuffer; prefixBuffer]).

(** A [for ... of] loop whose body may throw. *)
Fixpoint forEach {A S} (body : S -> A -> result S) (l : list A) (s : S)
  : result S :=
  match l with
  | [] => Ok s
  | x :: r => s' <- body s x ;; forEach body r s'
  end.

Definition writeGeoIpEntry (countryCode : jsstring) (cidrs : list cidr)
  : result bytes :=
  let buffer := Buffer_alloc 0 in
  countryBuffer <- writeString countryCode ;;
  tag1 <- writeUInt8 (Buffer_alloc 1) (Z.lor (Z.shiftl 1 3) 2) ;;
  let buffer := Buffer_concat [buffer; tag1; countryBuffer] in
  buffer <- forEach (fun buffer (c : cidr) =>
      cidrBuffer <- writeCidr (fst c) (snd c) ;;
      cidrLengthBuffer <-
        writeUInt32LE (Buffer_alloc 4) (jslength cidrBuffer) 0 ;;
      tag2 <- writeUInt8 (Buffer_alloc 1) (Z.lor (Z.shiftl 2 3) 2) ;;
      Ok (Buffer_concat [buffer; tag2; cidrLengthBuffer; cidrBuffer]))
    cidrs buffer ;;
  tag3 <- writeUInt8 (Buffer_alloc 1) (Z.lor (Z.shiftl 3 3) 0) ;;
  reverseMatchBuffer <- writeUInt8 (Buffer_alloc 1) 0 ;;
  Ok (Buffer_concat [buffer; tag3; reverseMatchBuffer]).

(** *** Driver *)

(** The [Map] of the driver: keys in insertion order, each with its array
    of CIDRs. *)
Definition entriesMap : Type := list (jsstring * list cidr).

Definition Map_get (m : entriesMap) (k : jsstring) : option (list cidr) :=
  assoc k m.

Definition Map_has (m : entriesMap) (k : jsstring) : bool :=
  match Map_get m k with
  | Some _ => true
  | None => false
  end.

(** [m.set(k, v)]: a new key goes last, a known key keeps its place. *)
Fixpoint Map_set (m : entriesMap) (k : jsstring) (v : list cidr)
  : entriesMap :=
  match m with
  | [] => [(k, v)]
  | (k', v') :: r =>
    if str_eqb k k' then (k', v) :: r else (k', v') :: Map_set r k v
  end.

Definition exampleCidrs : list cidr := [(js "192.168.1.0", 24)].

(** The body of the loop over the codes of one line.  The array under the
    key is extended in place; [get] on a missing key would make [push]
    throw. *)
Definition addCode (entries : entriesMap) (countryCode : jsstring)
  : result entriesMap :=
  let entries :=
    if negb (Map_has entries countryCode)
    then Map_set entries countryCode [] else entries in
  match Map_get entries countryCode with
  | None => Throw TypeError
  | Some arr => Ok (Map_set entries countryCode (arr ++ exampleCidrs))
  end.

(** Which branch of the loop parses the line. *)
Definition isIpdb `{Host} (inputFile : jsstring) : bool :=
  str_eqb (extname inputFile) (js ".ipdb").

Definition parseLine `{Host} (inputFile line : jsstring)
  : option GeoRecord :=
  if isIpdb inputFile then
    let entryData := trim line in
    parseIpdbEntry entryData
  else parseTextLine line.

(** The body of the loop over the lines; [Ok entries] unchanged is
    [continue]. *)
Definition processLine `{Host} (inputFile : jsstring)
    (entries : entriesMap) (line : jsstring) : result entriesMap :=
  match parseLine inputFile line with
  | None => Ok entries
  | Some r =>
    let country := country_name r in
    let region := region_name r in
    let city := city_name r in
    let ispDomain := isp_domain r in
    if negb (str_eqb country (js "中国")) then Ok entries
    else
      let countryCodes :=
        createCountryCodes country region city
                           (Some (js "4")) (Some ispDomain) in
      if (length countryCodes =? 0)%nat then Ok entries
      else forEach addCode countryCodes entries
  end.

(** The console. *)
Inductive consoleMsg :=
| ConsoleError (s : jsstring)
| ConsoleLog (s : jsstring).

(** The file system, as far as the script sees it.

    A path names a file system object through [resolve] (the working
    directory, "." and "..", links): two spellings of one file resolve to
    the same object.  An object that exists is a regular file that can be
    read, or something else (a directory, a file that may not be read).
    [writable] tells of an object whether writing it succeeds (its
    directory exists, it is not a directory itself, permissions allow
    it). *)
Inductive fsnode :=
| RegularFile (content : bytes)
| Unreadable.

Record world := mkWorld {
  resolve : jsstring -> jsstring;
  nodes : jsstring -> option fsnode;
  writable : jsstring -> bool;
  console : list consoleMsg
}.

(** What a path names. *)
Definition fileAt (w : world) (path : jsstring) : option fsnode :=
  nodes w (resolve w path).

Definition existsSync (w : world) (path : jsstring) : bool :=
  match fileAt w path with
  | Some _ => true
  | None => false
  end.

(** [fs.readFileSync(path)]: the bytes of a regular file; anything else
    throws. *)
Definition readFileSync (w : world) (path : jsstring) : result bytes :=
  match fileAt w path with
  | Some (RegularFile content) => Ok content
  | _ => Throw SystemError
  end.

(** [fs.writeFileSync(path, data)]: the file is created or replaced, or
    the call throws and nothing is written. *)
Definition writeFileSync (w : world) (path : jsstring) (data : bytes)
  : result world :=
  if writable w (resolve w path) then
    Ok (mkWorld (resolve w)
                (fun id => if str_eqb id (resolve w path)
                           then Some (RegularFile data) else nodes w id)
                (writable w)
                (console w))
  else Throw SystemError.

Definition console_print (w : world) (m : consoleMsg) : world :=
  mkWorld (resolve w) (nodes w) (writable w) (console w ++ [m]).

(** [data.split('\n').filter(line => line.trim() !== '')] *)
Definition nonBlankLines (data : jsstring) : list jsstring :=
  filter (fun line => negb (str_eqb (trim line) [])) (split LF data).

(** The scan of the lines. *)
Definition buildEntries `{Host} (inputFile : jsstring)
    (lines : list jsstring) : result entriesMap :=
  forEach (processLine inputFile) lines [].

(** The serialization of the table. *)
Definition encodeEntries (entries : entriesMap) : result bytes :=
  let fileBuffer := Buffer_alloc 0 in
  countBuffer <-
    writeUInt32LE (Buffer_alloc 4) (Z.of_nat (length entries)) 0 ;;
  let fileBuffer := Buffer_concat [fileBuffer; countBuffer] in
  forEach (fun fileBuffer (e : jsstring * list cidr) =>
             entryBuffer <- writeGeoIpEntry (fst e) (snd e) ;;
             Ok (Buffer_concat [fileBuffer; entryBuffer]))
          entries fileBuffer.

Definition generateGeoipDat `{Host} (w : world)
    (inputFile outputFile : jsstring) : result world :=
  if negb (existsSync w inputFile) then
    Ok (console_print w
          (ConsoleError (js "Error: Input file " ++ inputFile
                           ++ js " does not exist.")))
  else
    (* both branches on the extension read the file the same way; no
       call is guarded, an exception ends the run *)
    content <- readFileSync w inputFile ;;
    let data := utf8_decode content in
    let lines := nonBlankLines data in
    entries <- buildEntries inputFile lines ;;
    fileBuffer <- encodeEntries entries ;;
    w <- writeFileSync w outputFile fileBuffer ;;
    Ok (console_print w
          (ConsoleLog (js "Generated " ++ outputFile ++ js " with "
                         ++ decimal (length entries) ++ js " entries"))).

(** [main]: [argv] is [process.argv]. *)
Definition main `{Host} (w : world) (argv : list jsstring) : result world :=
  let args := skipn 2 argv in
  let inputFile := strOr (part args 0) (js "qqwry.ipdb") in
  let outputFile := strOr (part args 1) (js "geoip.dat") in
  generateGeoipDat w inputFile outputFile.

(* ================================================================== *)
(** ** A host to run the script on *)

Module RefHost.

(** [path.posix.extname]: the scan from the end of the path. *)
Record extState := mkExt {
  startDot : Z; startPart : Z; endIx : Z;
  matchedSlash : bool; preDotState : Z
}.

Fixpoint extnameLoop (cs : list (Z * Z)) (st : extState) : extState :=
  match cs with
  | [] => st
  | (i, code) :: r =>
    if code =? 47 then
      if negb (matchedSlash st)
      then mkExt (startDot st) (i + 1) (endIx st)
                 (matchedSlash st) (preDotState st)
      else extnameLoop r st
    else
      let st := if endIx st =? -1
                then mkExt (startDot st) (startPart st) (i + 1)
                           false (preDotState st)
                else st in
      let st :=
        if code =? 46 then
          if startDot st =? -1
          then mkExt i (startPart st) (endIx st)
                     (matchedSlash st) (preDotState st)
          else mkExt (startDot st) (startPart st) (endIx st)
                     (matchedSlash st) 1
        else if negb (startDot st =? -1)
        then mkExt (startDot st) (startPart st) (endIx st)
                   (matchedSlash st) (-1)
        else st in
      extnameLoop r st
  end.

Definition indexed (s : jsstring) : list (Z * Z) :=
  combine (map Z.of_nat (seq 0 (length s))) s.

Definition posixExtname (path : jsstring) : jsstring :=
  let st := extnameLoop (rev (indexed path)) (mkExt (-1) 0 (-1) true 0) in
  if (startDot st =? -1) || (endIx st =? -1) || (preDotState st =? 0)
     || ((preDotState st =? 1) && (startDot st =? endIx st - 1)
         && (startDot st =? startPart st + 1))
  then []
  else skipn (Z.to_nat (startDot st)) (firstn (Z.to_nat (endIx st)) path).

(** Upper-casing of the ASCII letters; other code units are kept. *)
Definition asciiUpper (s : jsstring) : jsstring :=
  map (fun c => if between 97 c 122 then c - 32 else c) s.

(** A few entries of the dictionary of the [pinyin] package. *)
Definition smallPinyin (s : jsstring) : list (list jsstring) :=
  if str_eqb s (js "深圳") then [[js "shen"]; [js "zhen"]]
  else if str_eqb s (js "北京") then [[js "bei"]; [js "jing"]]
  else if str_eqb s (js "广州") then [[js "guang"]; [js "zhou"]]
  else map (fun c => [[c]]) s.

Definition v8BuiltinText (key : jsstring) : jsstring :=
  if str_eqb key (js "__proto__") then js "[object Object]"
  else if str_eqb key (js "constructor")
  then js "function Object() { [native code] }"
  else js "function " ++ key ++ js "() { [native code] }".

#[export] Instance host : Host := {
  toUpperCase := asciiUpper;
  pinyin := smallPinyin;
  extname := posixExtname;
  builtinToString := v8BuiltinText
}.

(** Path resolution in one directory: "./name" is "name". *)
Definition sameDirectory (path : jsstring) : jsstring :=
  match path with
  | 46 :: 47 :: name => name
  | _ => path
  end.

(** A directory that holds one file; [canWrite] tells whether files can
    be written. *)
Definition disk (name : jsstring) (content : bytes) (canWrite : bool)
  : world :=
  mkWorld sameDirectory
          (fun id => if str_eqb id name
                     then Some (RegularFile content) else None)
          (fun _ => canWrite)
          [].

(** A directory that holds no file. *)
Definition emptyDisk : world :=
  mkWorld sameDirectory (fun _ => None) (fun _ => true) [].

End RefHost.

(* ================================================================== *)
(** ** Specification vocabulary *)

(** The four bytes of an unsigned 32-bit number, least significant
    first. *)
Definition le32 (n : Z) : bytes :=
  [n mod 256; (n / 256) mod 256; (n / 65536) mod 256; (n / 16777216) mod 256].

(** The number that four little-endian bytes stand for. *)
Definition readUInt32LE (bs : bytes) : Z :=
  match bs with
  | [b0; b1; b2; b3] => b0 + 256 * b1 + 65536 * b2 + 16777216 * b3
  | _ => -1
  end.

Definition isByte (b : Z) : Prop := 0 <= b < 256.

Definition u32 (n : Z) : Prop := 0 <= n < 2 ^ 32.

(** The address bytes of a CIDR, as [writeCidr] derives them from the
    text of the address. *)
Definition addressBytes (ip : jsstring) : bytes :=
  match split DOT ip with
  | [s0; s1; s2; s3] =>
    [toUint8 (parseInt s0); toUint8 (parseInt s1);
     toUint8 (parseInt s2); toUint8 (parseInt s3)]
  | _ => [0; 0; 0; 0]
  end.

(** A well-formed dotted-decimal IPv4 address: four parts, each one to
    three decimal digits, each at most 255. *)
Definition isOctetText (s : jsstring) : bool :=
  negb (str_eqb s []) && (length s <=? 3)%nat
  && forallb (fun c => between 48 c 57) s && (digitsValue 10 s <=? 255).

Definition isDottedQuad (ip : jsstring) : bool :=
  match split DOT ip with
  | [s0; s1; s2; s3] => forallb isOctetText [s0; s1; s2; s3]
  | _ => false
  end.

(** Field 2 of an entry, for one CIDR. *)
Definition cidrField (c : cidr) : bytes :=
  [0x12] ++ le32 8 ++ (addressBytes (fst c) ++ le32 (snd c)).

(** The keys of a list in the order of their first occurrence. *)
Fixpoint firstSeen (l : list jsstring) : list jsstring :=
  match l with
  | [] => []
  | k :: r => k :: filter (fun k' => negb (str_eqb k' k)) (firstSeen r)
  end.

(** The codes that one line of the input gives. *)
Definition codesOfLine `{Host} (inputFile line : jsstring) : list jsstring :=
  match parseLine inputFile line with
  | None => []
  | Some r =>
    createCountryCodes (country_name r) (region_name r) (city_name r)
                       (Some (js "4")) (Some (isp_domain r))
  end.

(** A line whose record names the one country the driver keeps. *)
Definition isChinaLine `{Host} (inputFile line : jsstring) : bool :=
  match parseLine inputFile line with
  | None => false
  | Some r => str_eqb (country_name r) (js "中国")
  end.

(** What one step of the scan does to the keys of the table. *)
Definition seeKey (keys : list jsstring) (k : jsstring) : list jsstring :=
  if existsb (str_eqb k) keys then keys else keys ++ [k].

(** A table entry as the driver makes it: one placeholder CIDR for each
    time the code was generated, and at least one. *)
Definition placeholders (e : jsstring * list cidr) : Prop :=
  snd e <> [] /\ Forall (fun c : cidr => c = (js "192.168.1.0", 24)) (snd e).

(** How often a code was generated. *)
Definition occurrences (k : jsstring) (l : list jsstring) : nat :=
  length (filter (str_eqb k) l).

(** Two upper-case ASCII letters. *)
Definition isTwoUpper (s : jsstring) : bool :=
  match s with
  | [a; b] => between 65 a 90 && between 65 b 90
  | _ => false
  end.

(** *** Reading the format back

    The script has no reader.  These functions read what the encoder
    writes, so that the format can be shown to determine its content. *)

(** A CIDR as it is in the file: the four address bytes and the prefix
    length. *)
Definition cidrData : Type := bytes * Z.

(** The fields 2 of an entry, up to and with its field 3. *)
Fixpoint decodeCidrs (bs : bytes) : option (list cidrData * bytes) :=
  match bs with
  | [] => None
  | t :: bs1 =>
    if t =? 0x18 then
      match bs1 with
      | z :: rest => if z =? 0 then Some ([], rest) else None
      | [] => None
      end
    else if t =? 0x12 then
      match bs1 with
      | l0 :: l1 :: l2 :: l3 :: a :: b :: c :: d
           :: p0 :: p1 :: p2 :: p3 :: rest =>
        if readUInt32LE [l0; l1; l2; l3] =? 8 then
          match decodeCidrs rest with
          | Some (cs, rest') =>
            Some (([a; b; c; d], readUInt32LE [p0; p1; p2; p3]) :: cs, rest')
          | None => None
          end
        else None
      | _ => None
      end
    else None
  end.

(** One entry: the UTF-8 bytes of its code, its CIDRs, and what follows
    the entry. *)
Definition decodeEntry (bs : bytes)
  : option (bytes * list cidrData * bytes) :=
  match bs with
  | t :: l0 :: l1 :: l2 :: l3 :: rest =>
    if t =? 0x0A then
      let n := Z.to_nat (readUInt32LE [l0; l1; l2; l3]) in
      if (length rest <? n)%nat then None
      else
        match decodeCidrs (skipn n rest) with
        | Some (cs, rest') => Some (firstn n rest, cs, rest')
        | None => None
        end
    else None
  | _ => None
  end.

Fixpoint decodeEntries (n : nat) (bs : bytes)
  : option (list (bytes * list cidrData) * bytes) :=
  match n with
  | O => Some ([], bs)
  | S n' =>
    match decodeEntry bs with
    | Some (code, cs, rest) =>
      match decodeEntries n' rest with
      | Some (es, rest') => Some ((code, cs) :: es, rest')
      | None => None
      end
    | None => None
    end
  end.

(** A whole file: the count, then that many entries and nothing more. *)
Definition decodeFile (bs : bytes) : option (list (bytes * list cidrData)) :=
  match bs with
  | l0 :: l1 :: l2 :: l3 :: rest =>
    match decodeEntries (Z.to_nat (readUInt32LE [l0; l1; l2; l3])) rest with
    | Some (es, []) => Some es
    | _ => None
    end
  | _ => None
  end.

(** What the file keeps of a table entry. *)
Definition entryData (e : jsstring * list cidr) : bytes * list cidrData :=
  (utf8_encode (fst e),
   map (fun c : cidr => (addressBytes (fst c), snd c)) (snd e)).

(* ================================================================== *)
(** ** Basic facts *)

Lemma str_eqb_eq (a b : jsstring) : str_eqb a b = true <-> a = b.
Proof.
  revert b; induction a as [|x a IH]; intros [|y b]; simpl;
    try (split; [discriminate | congruence]); try tauto.
  rewrite andb_true_iff, Z.eqb_eq, IH. split.
  - intros [-> ->]; reflexivity.
  - intros E; injection E; auto.
Qed.

Lemma str_eqb_refl (a : jsstring) : str_eqb a a = true.
Proof. apply str_eqb_eq; reflexivity. Qed.

Lemma str_eqb_neq (a b : jsstring) : str_eqb a b = false <-> a <> b.
Proof.
  rewrite <- str_eqb_eq. destruct (str_eqb a b); split; congruence.
Qed.

Lemma str_eqb_sym (a b : jsstring) : str_eqb a b = str_eqb b a.
Proof.
  destruct (str_eqb a b) eqn:E.
  - apply str_eqb_eq in E; subst; symmetry; apply str_eqb_refl.
  - symmetry; apply str_eqb_neq; apply str_eqb_neq in E; congruence.
Qed.

Lemma str_eqb_length (a b : jsstring) :
  str_eqb a b = true -> length a = length b.
Proof. intros E; apply str_eqb_eq in E; congruence. Qed.

Lemma toUint8_byte (v : number) : isByte (toUint8 v).
Proof.
  destruct v; unfold isByte; simpl; [lia|].
  apply Z.mod_pos_bound; lia.
Qed.

Lemma le32_bytes (n : Z) : Forall isByte (le32 n).
Proof.
  unfold le32, isByte; repeat constructor; apply Z.mod_pos_bound; lia.
Qed.

Lemma le32_length (n : Z) : length (le32 n) = 4%nat.
Proof. reflexivity. Qed.

Lemma readUInt32LE_le32 (n : Z) : u32 n -> readUInt32LE (le32 n) = n.
Proof.
  unfold u32, le32, readUInt32LE; intros Hn.
  change (2 ^ 32) with 4294967296 in Hn.
  Z.to_euclidean_division_equations; lia.
Qed.

Lemma writeUInt32LE_alloc (n : Z) :
  u32 n -> writeUInt32LE (Buffer_alloc 4) n 0 = Ok (le32 n).
Proof.
  unfold u32; change (2 ^ 32) with 4294967296; intros Hn.
  unfold writeUInt32LE.
  replace ((n <? 0) || (0xFFFFFFFF <? n)) with false
    by (symmetry; apply orb_false_iff; split; apply Z.ltb_ge; lia).
  cbn [Buffer_alloc repeat length Nat.ltb Nat.leb Nat.add buf_set toUint8].
  unfold le32. rewrite !Z.shiftr_div_pow2 by lia.
  change (2 ^ 8) with 256.
  rewrite !Z.div_div by lia. reflexivity.
Qed.

Lemma writeUInt32LE_range (buf : bytes) (n : Z) (off : nat) :
  ~ u32 n -> writeUInt32LE buf n off = Throw RangeError.
Proof.
  unfold u32; change (2 ^ 32) with 4294967296; intros Hn.
  unfold writeUInt32LE.
  replace ((n <? 0) || (0xFFFFFFFF <? n)) with true; [reflexivity|].
  symmetry; apply orb_true_iff.
  destruct (Z.ltb_spec n 0); [now left|right; apply Z.ltb_lt; lia].
Qed.

Lemma addressBytes_length (ip : jsstring) : length (addressBytes ip) = 4%nat.
Proof.
  unfold addressBytes.
  destruct (split DOT ip) as [|s0 [|s1 [|s2 [|s3 [|s4 r]]]]]; reflexivity.
Qed.

Lemma addressBytes_bytes (ip : jsstring) : Forall isByte (addressBytes ip).
Proof.
  unfold addressBytes.
  destruct (split DOT ip) as [|s0 [|s1 [|s2 [|s3 [|s4 r]]]]];
    repeat constructor; try apply toUint8_byte; unfold isByte; lia.
Qed.

(** A prefix length that is not an unsigned 32-bit number makes the
    buffer write throw. *)
Lemma writeCidr_range (ip : jsstring) (p : Z) :
  ~ u32 p -> writeCidr ip p = Throw RangeError.
Proof.
  intros Hp. unfold writeCidr.
  rewrite (writeUInt32LE_range _ _ _ Hp). reflexivity.
Qed.

(** [writeCidr] in closed form. *)
Lemma writeCidr_eq (ip : jsstring) (p : Z) :
  u32 p -> writeCidr ip p = Ok (addressBytes ip ++ le32 p).
Proof.
  intros Hp. unfold writeCidr, addressBytes.
  rewrite (writeUInt32LE_alloc p Hp).
  destruct (split DOT ip) as [|s0 [|s1 [|s2 [|s3 [|s4 r]]]]]; reflexivity.
Qed.

Lemma writeCidr_length (ip : jsstring) (p : Z) (b : bytes) :
  writeCidr ip p = Ok b -> jslength b = 8.
Proof.
  intros E. destruct (Z.lt_ge_cases p 0) as [Hlo|Hlo];
    [|destruct (Z.lt_ge_cases p (2 ^ 32)) as [Hhi|Hhi]].
  - unfold writeCidr in E. rewrite writeUInt32LE_range in E
      by (unfold u32; lia). discriminate.
  - rewrite writeCidr_eq in E by (unfold u32; lia).
    injection E as <-. unfold jslength.
    rewrite length_app, addressBytes_length, le32_length. reflexivity.
  - unfold writeCidr in E. rewrite writeUInt32LE_range in E
      by (unfold u32; lia). discriminate.
Qed.

(** The loop over the CIDRs appends one field per CIDR. *)
Lemma forEach_cidrs (cidrs : list cidr) (buffer : bytes) :
  Forall (fun c : cidr => u32 (snd c)) cidrs ->
  forEach (fun buffer (c : cidr) =>
      cidrBuffer <- writeCidr (fst c) (snd c) ;;
      cidrLengthBuffer <-
        writeUInt32LE (Buffer_alloc 4) (jslength cidrBuffer) 0 ;;
      tag2 <- writeUInt8 (Buffer_alloc 1) (Z.lor (Z.shiftl 2 3) 2) ;;
      Ok (Buffer_concat [buffer; tag2; cidrLengthBuffer; cidrBuffer]))
    cidrs buffer
  = Ok (buffer ++ flat_map cidrField cidrs).
Proof.
  intros Hall; revert buffer.
  induction Hall as [|c cidrs Hc _ IH]; intros buffer; cbn [forEach].
  - cbn [flat_map]. rewrite app_nil_r; reflexivity.
  - rewrite (writeCidr_eq _ _ Hc). cbn [bind].
    replace (jslength (addressBytes (fst c) ++ le32 (snd c))) with 8
      by (unfold jslength;
          rewrite length_app, addressBytes_length, le32_length; reflexivity).
    rewrite writeUInt32LE_alloc by (unfold u32; lia).
    cbn [bind]. change (writeUInt8 (Buffer_alloc 1) (Z.lor (Z.shiftl 2 3) 2))
      with (@Ok bytes [0x12]).
    cbn [bind Buffer_concat concat]. rewrite IH.
    cbn [flat_map]. unfold cidrField at 2.
    rewrite app_nil_r, <- !app_assoc. reflexivity.
Qed.

(** [writeGeoIpEntry] in closed form. *)
Lemma writeGeoIpEntry_eq (c : jsstring) (cidrs : list cidr) :
  u32 (jslength (utf8_encode c)) ->
  Forall (fun x : cidr => u32 (snd x)) cidrs ->
  writeGeoIpEntry c cidrs =
    Ok ([0x0A] ++ le32 (jslength (utf8_encode c)) ++ utf8_encode c
        ++ flat_map cidrField cidrs ++ [0x18; 0x00]).
Proof.
  intros Hc Hall. unfold writeGeoIpEntry, writeString.
  rewrite (writeUInt32LE_alloc _ Hc). cbn [bind].
  change (writeUInt8 (Buffer_alloc 1) (Z.lor (Z.shiftl 1 3) 2))
    with (@Ok bytes [0x0A]).
  cbn [bind]. rewrite (forEach_cidrs cidrs _ Hall). cbn [bind].
  change (writeUInt8 (Buffer_alloc 1) (Z.lor (Z.shiftl 3 3) 0))
    with (@Ok bytes [0x18]).
  change (writeUInt8 (Buffer_alloc 1) 0) with (@Ok bytes [0x00]).
  cbn [bind Buffer_concat Buffer_alloc repeat concat app].
  rewrite !app_nil_r, <- !app_assoc. reflexivity.
Qed.

Lemma digit_range (c : Z) : between 48 c 57 = true <-> 48 <= c <= 57.
Proof. unfold between. rewrite andb_true_iff, !Z.leb_le. tauto. Qed.

Lemma between_out (lo c hi : Z) : c < lo \/ hi < c -> between lo c hi = false.
Proof.
  intros O. unfold between. apply andb_false_iff.
  destruct O; [left; apply Z.leb_gt | right; apply Z.leb_gt]; assumption.
Qed.

Lemma isWhiteSpace_digit (c : Z) :
  between 48 c 57 = true -> isWhiteSpace c = false.
Proof.
  rewrite digit_range. intros R. unfold isWhiteSpace.
  rewrite !between_out by lia.
  repeat match goal with
         | |- context [c =? ?k] =>
           replace (c =? k) with false by (symmetry; apply Z.eqb_neq; lia)
         end.
  reflexivity.
Qed.

Lemma isRadixDigit_digit (c : Z) :
  between 48 c 57 = true -> isRadixDigit 10 c = true.
Proof.
  intros R. unfold isRadixDigit, digitValue. rewrite R.
  apply digit_range in R. apply Z.ltb_lt. lia.
Qed.

Lemma takeWhile_digits (s : jsstring) :
  forallb (fun c => between 48 c 57) s = true ->
  takeWhile (isRadixDigit 10) s = s.
Proof.
  induction s as [|c s IH]; cbn [forallb takeWhile]; [reflexivity|].
  rewrite andb_true_iff. intros [R F].
  rewrite (isRadixDigit_digit _ R), (IH F). reflexivity.
Qed.

Lemma digitsValue_nonneg (radix : Z) (s : jsstring) :
  0 <= radix -> 0 <= digitsValue radix s.
Proof.
  intros Hr. unfold digitsValue.
  assert (G : forall acc, 0 <= acc ->
                0 <= fold_left (fun acc c =>
                                  match digitValue c with
                                  | Some d => acc * radix + d
                                  | None => acc
                                  end) s acc).
  { induction s as [|c s IH]; intros acc Ha; cbn [fold_left]; [assumption|].
    apply IH. unfold digitValue.
    destruct (between 48 c 57) eqn:B1;
      [apply digit_range in B1; nia|].
    destruct (between 97 c 102) eqn:B2;
      [unfold between in B2; apply andb_true_iff in B2;
       rewrite !Z.leb_le in B2; nia|].
    destruct (between 65 c 70) eqn:B3;
      [unfold between in B3; apply andb_true_iff in B3;
       rewrite !Z.leb_le in B3; nia|].
    assumption. }
  apply G. lia.
Qed.

(** A non-empty run of decimal digits is read as its decimal value. *)
Lemma parseInt_digits (s : jsstring) :
  s <> [] -> forallb (fun c => between 48 c 57) s = true ->
  parseInt s = Num (roundToDouble (digitsValue 10 s)).
Proof.
  intros N F. destruct s as [|a r]; [congruence|].
  pose proof F as F'. cbn [forallb] in F'. apply andb_true_iff in F'.
  destruct F' as [Ra Fr].
  pose proof (proj1 (digit_range a) Ra) as Ia.
  unfold parseInt, trimStart. cbn [dropWhile].
  rewrite (isWhiteSpace_digit _ Ra).
  replace (a =? 45) with false by (symmetry; apply Z.eqb_neq; lia).
  replace (a =? 43) with false by (symmetry; apply Z.eqb_neq; lia).
  cbn [orb].
  assert (T : takeWhile (isRadixDigit 10) (a :: r) = a :: r)
    by (apply takeWhile_digits; assumption).
  destruct r as [|b r'].
  - rewrite T. rewrite Z.mul_1_l. reflexivity.
  - cbn [forallb] in Fr. apply andb_true_iff in Fr. destruct Fr as [Rb _].
    apply digit_range in Rb.
    replace (b =? 120) with false by (symmetry; apply Z.eqb_neq; lia).
    replace (b =? 88) with false by (symmetry; apply Z.eqb_neq; lia).
    rewrite andb_false_r. rewrite T. rewrite Z.mul_1_l. reflexivity.
Qed.

(** On the text of an octet [parseInt] reads the decimal value, which the
    byte store keeps. *)
Lemma parseInt_octet (s : jsstring) :
  isOctetText s = true ->
  toUint8 (parseInt s) = digitsValue 10 s /\ 0 <= digitsValue 10 s <= 255.
Proof.
  unfold isOctetText. rewrite !andb_true_iff.
  intros [[[N L] D] V].
  assert (Ns : s <> []) by (intros ->; discriminate N).
  apply Z.leb_le in V.
  pose proof (digitsValue_nonneg 10 s ltac:(lia)) as P.
  split; [|lia].
  rewrite (parseInt_digits s Ns D). unfold roundToDouble.
  replace (digitsValue 10 s <? 2 ^ 53) with true
    by (symmetry; apply Z.ltb_lt; change (2 ^ 53) with 9007199254740992; lia).
  cbn [toUint8]. apply Z.mod_small. lia.
Qed.

(** The address bytes of a well-formed dotted quad are its octets. *)
Lemma addressBytes_dotted_quad (ip : jsstring) :
  isDottedQuad ip = true ->
  addressBytes ip = map (digitsValue 10) (split DOT ip).
Proof.
  unfold isDottedQuad, addressBytes.
  destruct (split DOT ip) as [|s0 [|s1 [|s2 [|s3 [|s4 r]]]]];
    try discriminate.
  cbn [forallb]. rewrite !andb_true_iff. intros (O0 & O1 & O2 & O3 & _).
  cbn [map].
  rewrite (proj1 (parseInt_octet _ O0)), (proj1 (parseInt_octet _ O1)),
    (proj1 (parseInt_octet _ O2)), (proj1 (parseInt_octet _ O3)).
  reflexivity.
Qed.

(* ================================================================== *)
(** ** The binary encoder *)

(** C1.  For every country code [c] (a string, so its UTF-8 length fits
    32 bits) and every list of CIDR pairs with unsigned 32-bit prefix
    lengths, [writeGeoIpEntry c cidrs] returns exactly: the tag byte 0x0A,
    the 4-byte little-endian length of the UTF-8 encoding of [c], those
    UTF-8 bytes; then for each CIDR in list order the tag byte 0x12, the
    4-byte little-endian length 8 and the 8-byte sub-message (4 address
    bytes, then the 4-byte little-endian prefix length); then the tag
    byte 0x18 and the byte 0x00. *)
Theorem writeGeoIpEntry_layout (c : jsstring) (cidrs : list cidr) :
  u32 (jslength (utf8_encode c)) ->
  Forall (fun x : cidr => u32 (snd x)) cidrs ->
  writeGeoIpEntry c cidrs =
    Ok ([0x0A] ++ le32 (jslength (utf8_encode c)) ++ utf8_encode c
        ++ flat_map cidrField cidrs ++ [0x18; 0x00])
  /\ readUInt32LE (le32 (jslength (utf8_encode c)))
     = jslength (utf8_encode c)
  /\ Forall (fun x : cidr =>
               cidrField x
               = [0x12; 8; 0; 0; 0] ++ addressBytes (fst x) ++ le32 (snd x)
               /\ length (addressBytes (fst x)) = 4%nat
               /\ length (le32 (snd x)) = 4%nat
               /\ readUInt32LE (le32 (snd x)) = snd x) cidrs.
Proof.
  intros Hc Hall. split; [apply writeGeoIpEntry_eq; assumption|].
  split; [apply readUInt32LE_le32; assumption|].
  induction Hall as [|x l Hx _ IH]; constructor; [|exact IH].
  repeat split.
  - apply addressBytes_length.
  - apply readUInt32LE_le32; assumption.
Qed.

Lemma writeGeoIpEntry_layout_witness :
  writeGeoIpEntry (js "4-DX-BJ") exampleCidrs
  = Ok [0x0A; 7; 0; 0; 0; 52; 45; 68; 88; 45; 66; 74;
        0x12; 8; 0; 0; 0; 192; 168; 1; 0; 24; 0; 0; 0; 0x18; 0x00].
Proof.
  refine (proj1 (writeGeoIpEntry_layout (js "4-DX-BJ") exampleCidrs _ _)).
  - unfold u32; vm_compute; split; [discriminate | reflexivity].
  - repeat constructor; vm_compute; discriminate.
Defined.

(** C3, as it is written, fails: an address that is not a dotted quad can
    still split into four parts, and then its leading numbers are
    written. *)
Lemma writeCidr_malformed_not_zeroed :
  ~ (forall (ip : jsstring) (p : Z),
        isDottedQuad ip = false ->
        exists rest, writeCidr ip p = Ok ([0; 0; 0; 0] ++ rest)).
Proof.
  intros C. destruct (C (js "1.2.3.x") 24 eq_refl) as [rest E].
  vm_compute in E. discriminate E.
Qed.

(** C3 (amended).  For every address string [ip] and every unsigned 32-bit
    prefix length [p], [writeCidr ip p] does not throw and returns exactly
    8 bytes: 4 address bytes, then the 4-byte little-endian prefix length.
    When [ip] does not split on the dot into exactly four parts the address
    bytes are all zero; when it does, each address byte is [parseInt] of
    its part modulo 256 (0 for NaN), whatever else the part holds; for a
    well-formed dotted quad these are its four octets. *)
Theorem writeCidr_layout (ip : jsstring) (p : Z) :
  u32 p ->
  exists a b c d,
    writeCidr ip p = Ok ([a; b; c; d] ++ le32 p)
    /\ length ([a; b; c; d] ++ le32 p) = 8%nat
    /\ Forall isByte ([a; b; c; d] ++ le32 p)
    /\ readUInt32LE (le32 p) = p
    /\ (length (split DOT ip) <> 4%nat -> [a; b; c; d] = [0; 0; 0; 0])
    /\ (forall s0 s1 s2 s3, split DOT ip = [s0; s1; s2; s3] ->
          [a; b; c; d] = [toUint8 (parseInt s0); toUint8 (parseInt s1);
                          toUint8 (parseInt s2); toUint8 (parseInt s3)])
    /\ (isDottedQuad ip = true ->
        [a; b; c; d] = map (digitsValue 10) (split DOT ip)).
Proof.
  intros Hp.
  pose proof (addressBytes_dotted_quad ip) as Hd.
  pose proof (addressBytes_length ip) as Hl.
  pose proof (addressBytes_bytes ip) as Hb.
  pose proof (writeCidr_eq ip p Hp) as E.
  assert (Hz : length (split DOT ip) <> 4%nat ->
               addressBytes ip = [0; 0; 0; 0]).
  { unfold addressBytes.
    destruct (split DOT ip) as [|s0 [|s1 [|s2 [|s3 [|s4 r]]]]];
      simpl; congruence. }
  assert (Hq : forall s0 s1 s2 s3, split DOT ip = [s0; s1; s2; s3] ->
               addressBytes ip =
               [toUint8 (parseInt s0); toUint8 (parseInt s1);
                toUint8 (parseInt s2); toUint8 (parseInt s3)]).
  { intros s0 s1 s2 s3 Es. unfold addressBytes. rewrite Es. reflexivity. }
  destruct (addressBytes ip) as [|a [|b [|c [|d [|x r]]]]]; try discriminate.
  exists a, b, c, d. repeat split; auto.
  - apply Forall_app; split; [assumption | apply le32_bytes].
  - apply readUInt32LE_le32; assumption.
Qed.

Lemma writeCidr_layout_witness :
  exists a b c d,
    writeCidr (js "192.168.1.0") 24 = Ok ([a; b; c; d] ++ le32 24)
    /\ [a; b; c; d] = [192; 168; 1; 0].
Proof.
  destruct (writeCidr_layout (js "192.168.1.0") 24) as
      (a & b & c & d & E & _ & _ & _ & _ & Hq & _).
  - unfold u32; vm_compute; split; [discriminate | reflexivity].
  - exists a, b, c, d. split; [exact E|].
    exact (Hq (js "192") (js "168") (js "1") (js "0") eq_refl).
Defined.

(* ================================================================== *)
(** ** The code normalizer *)

Lemma assoc_Some_In {V} (k : jsstring) (m : list (jsstring * V)) (v : V) :
  assoc k m = Some v -> In (k, v) m.
Proof.
  induction m as [|[k' v'] m IH]; simpl; [discriminate|].
  destruct (str_eqb k k') eqn:E.
  - apply str_eqb_eq in E; subst. intros [= ->]. now left.
  - intros A; right; auto.
Qed.

Lemma assoc_None_notin {V} (k : jsstring) (m : list (jsstring * V)) :
  assoc k m = None <-> ~ In k (map fst m).
Proof.
  induction m as [|[k' v'] m IH]; simpl; [tauto|].
  destruct (str_eqb k k') eqn:E.
  - apply str_eqb_eq in E; subst. split.
    + intros D; discriminate D.
    + intros N; exfalso; apply N; left; reflexivity.
  - apply str_eqb_neq in E. rewrite IH. split.
    + intros N [C|C]; [congruence | tauto].
    + tauto.
Qed.

(** In [pinyinMap] no key is written twice. *)
Lemma pinyinMap_lookup (k v : jsstring) :
  In (k, v) pinyinMap -> assoc k pinyinMap = Some v.
Proof.
  assert (C : forallb (fun kv : jsstring * jsstring =>
                         match assoc (fst kv) pinyinMap with
                         | Some v' => str_eqb v' (snd kv)
                         | None => false
                         end) pinyinMap = true) by (vm_compute; reflexivity).
  intros I. rewrite forallb_forall in C. specialize (C _ I).
  cbn [fst snd] in C.
  destruct (assoc k pinyinMap); [|discriminate C].
  apply str_eqb_eq in C; congruence.
Qed.

(** Every value of [pinyinMap] is a non-empty string, hence truthy. *)
Lemma pinyinMap_truthy (k v : jsstring) :
  In (k, v) pinyinMap -> truthy (VStr v) = true.
Proof.
  assert (C : forallb (fun kv : jsstring * jsstring => truthy (VStr (snd kv)))
                      pinyinMap = true) by (vm_compute; reflexivity).
  intros I. rewrite forallb_forall in C. exact (C _ I).
Qed.

(** No property name of [Object.prototype] has fewer than seven code
    units. *)
Lemma objectPrototypeKeys_long (k : jsstring) :
  In k objectPrototypeKeys -> (7 <= length k)%nat.
Proof.
  assert (C : forallb (fun k => (7 <=? length k)%nat) objectPrototypeKeys
              = true) by (vm_compute; reflexivity).
  intros I. rewrite forallb_forall in C. apply Nat.leb_le. exact (C _ I).
Qed.

Lemma inherited_iff (k : jsstring) :
  existsb (str_eqb k) objectPrototypeKeys = true <-> In k objectPrototypeKeys.
Proof.
  rewrite existsb_exists. split.
  - intros (x & I & E). apply str_eqb_eq in E; subst; assumption.
  - intros I. exists k. split; [assumption | apply str_eqb_refl].
Qed.

Lemma getProp_own (k v : jsstring) :
  In (k, v) pinyinMap -> getProp pinyinMap k = VStr v.
Proof. intros I. unfold getProp. rewrite (pinyinMap_lookup _ _ I). reflexivity. Qed.

Lemma getProp_short (k : jsstring) :
  (length k <= 2)%nat -> assoc k pinyinMap = None ->
  getProp pinyinMap k = VUndefined.
Proof.
  intros L A. unfold getProp. rewrite A.
  destruct (existsb (str_eqb k) objectPrototypeKeys) eqn:E; [|reflexivity].
  apply inherited_iff, objectPrototypeKeys_long in E. lia.
Qed.

(** The lookup of [getIspCode] on a key of at most two code units. *)
Lemma isp_lookup (k : jsstring) :
  (length k <= 2)%nat ->
  jsOr (getProp pinyinMap k) (VStr (js "UN"))
  = VStr (match assoc k pinyinMap with
          | Some code => code
          | None => js "UN"
          end).
Proof.
  intros L. destruct (assoc k pinyinMap) as [v|] eqn:A.
  - apply assoc_Some_In in A. rewrite (getProp_own _ _ A).
    unfold jsOr. rewrite (pinyinMap_truthy _ _ A). reflexivity.
  - rewrite (getProp_short _ L A). reflexivity.
Qed.

Lemma getIspCode_eq (name : jsstring) :
  getIspCode name
  = VStr (match assoc (substring0 2 name) pinyinMap with
          | Some code => code
          | None => js "UN"
          end).
Proof.
  destruct name as [|a [|b r]].
  - reflexivity.
  - change (getIspCode [a])
      with (jsOr (getProp pinyinMap [a]) (VStr (js "UN"))).
    apply isp_lookup. simpl; lia.
  - unfold getIspCode, jslength.
    replace (2 <=? Z.of_nat (length (a :: b :: r))) with true
      by (symmetry; apply Z.leb_le; simpl length; lia).
    apply isp_lookup. simpl; lia.
Qed.

(** C4, as it is written, fails: the table that [getIspCode] reads also
    holds the regions, so a carrier name that begins with a region name
    gets the code of the region. *)
Lemma getIspCode_region_prefix :
  ~ (forall name : jsstring,
        exists code, getIspCode name = VStr code
                     /\ (In code (map snd carrierEntries) \/ code = js "UN")).
Proof.
  intros C. destruct (C (js "北京电信")) as (code & E & I).
  vm_compute in E. injection E as <-.
  vm_compute in I. intuition discriminate.
Qed.

(** C4 (amended).  For every ISP name, [getIspCode] looks up the first two
    code units of the name (the single one if the name has length one) in
    the whole of [pinyinMap], carriers and regions alike: its result is
    the code mapped there, or the fixed sentinel "UN" on a miss or on the
    empty name.  In particular the code of "电信" is "DX" and the code of
    the empty name is "UN". *)
Theorem getIspCode_spec (name : jsstring) :
  ((exists code, In (substring0 2 name, code) pinyinMap
                 /\ getIspCode name = VStr code)
   \/ (~ In (substring0 2 name) (map fst pinyinMap)
       /\ getIspCode name = VStr (js "UN")))
  /\ (length name = 1%nat -> substring0 2 name = name)
  /\ getIspCode (js "电信") = VStr (js "DX")
  /\ getIspCode [] = VStr (js "UN").
Proof.
  split; [|split; [|split; reflexivity]].
  - rewrite getIspCode_eq.
    destruct (assoc (substring0 2 name) pinyinMap) as [v|] eqn:A.
    + left. exists v. split; [apply assoc_Some_In; assumption | reflexivity].
    + right. split; [apply assoc_None_notin; assumption | reflexivity].
  - destruct name as [|a [|b r]]; simpl; intros; congruence.
Qed.

Lemma getIspCode_spec_witness :
  substring0 2 (js "X") = js "X" /\ getIspCode (js "X") = VStr (js "UN").
Proof.
  destruct (getIspCode_spec (js "X")) as (_ & L & _).
  split; [exact (L eq_refl) | reflexivity].
Defined.

(** C5, as it is written, fails: a carrier name is in the table without
    being a region name, and gets its carrier code instead of its own
    first three characters. *)
Lemma getStandardRegionCode_carrier_name :
  ~ (forall name : jsstring,
        name <> [] ->
        ~ In name (map fst regionEntries) ->
        @getStandardRegionCode RefHost.host name
        = VStr (@toUpperCase RefHost.host (substring0 3 name))).
Proof.
  intros C. specialize (C (js "电信")).
  assert (E : @getStandardRegionCode RefHost.host (js "电信")
              = VStr (js "DX")) by reflexivity.
  rewrite E in C.
  assert (N : VStr (js "DX")
              <> VStr (@toUpperCase RefHost.host (substring0 3 (js "电信"))))
    by (vm_compute; discriminate).
  apply N, C.
  - vm_compute; discriminate.
  - vm_compute. intuition discriminate.
Qed.

(** X15.  What the lookup gives for a name that [Object.prototype]
    defines: the inherited object, not a string. *)
Lemma getStandardRegionCode_inherited `{Host} (name : jsstring) :
  In name objectPrototypeKeys ->
  getStandardRegionCode name = VBuiltin name.
Proof.
  intros I. unfold getStandardRegionCode, getProp.
  assert (A : assoc name pinyinMap = None).
  { apply assoc_None_notin. intros K.
    apply objectPrototypeKeys_long in I.
    assert (C : forallb (fun k => (length k <=? 3)%nat) (map fst pinyinMap)
                = true) by (vm_compute; reflexivity).
    rewrite forallb_forall in C. specialize (C _ K).
    apply Nat.leb_le in C. lia. }
  rewrite A. apply inherited_iff in I. rewrite I. reflexivity.
Qed.

(** C5 (amended).  For every name that is a key of the static table
    (the region names, and the carrier names kept in the same table),
    [getStandardRegionCode] returns exactly the mapped code, which for a
    region has two letters; for every name that is neither a key of the
    table nor a property name inherited from [Object.prototype], it
    returns the upper-cased first three code units of the name. *)
Theorem getStandardRegionCode_spec `{Host} (name : jsstring) :
  (forall code, In (name, code) regionEntries ->
     getStandardRegionCode name = VStr code /\ length code = 2%nat)
  /\ (forall code, In (name, code) pinyinMap ->
        getStandardRegionCode name = VStr code)
  /\ (~ In name (map fst pinyinMap) -> ~ In name objectPrototypeKeys ->
      getStandardRegionCode name = VStr (toUpperCase (substring0 3 name))).
Proof.
  assert (Own : forall code, In (name, code) pinyinMap ->
                  getStandardRegionCode name = VStr code).
  { intros code I. unfold getStandardRegionCode.
    rewrite (getProp_own _ _ I). unfold jsOr.
    rewrite (pinyinMap_truthy _ _ I). reflexivity. }
  split; [|split].
  - intros code I. split.
    + apply Own. unfold pinyinMap. apply in_or_app. now right.
    + assert (C : forallb (fun kv : jsstring * jsstring =>
                             (length (snd kv) =? 2)%nat) regionEntries = true)
        by (vm_compute; reflexivity).
      rewrite forallb_forall in C. apply Nat.eqb_eq. exact (C _ I).
  - exact Own.
  - intros NK NI. unfold getStandardRegionCode, getProp.
    apply assoc_None_notin in NK. rewrite NK.
    destruct (existsb (str_eqb name) objectPrototypeKeys) eqn:E.
    + apply inherited_iff in E. contradiction.
    + reflexivity.
Qed.

Lemma getStandardRegionCode_spec_witness :
  @getStandardRegionCode RefHost.host (js "广东") = VStr (js "GD")
  /\ @getStandardRegionCode RefHost.host (js "abcd") = VStr (js "ABC").
Proof.
  split.
  - refine (proj1 (proj1 (@getStandardRegionCode_spec RefHost.host (js "广东"))
                         (js "GD") _)).
    vm_compute. intuition.
  - refine (proj2 (proj2 (@getStandardRegionCode_spec RefHost.host
                            (js "abcd"))) _ _).
    + vm_compute. intuition discriminate.
    + vm_compute. intuition discriminate.
Defined.

(* ================================================================== *)
(** ** The record parser *)

Lemma split_sep (sep : Z) (r : jsstring) :
  split sep (sep :: r) = [] :: split sep r.
Proof. simpl. rewrite Z.eqb_refl. reflexivity. Qed.

Lemma split_nonempty (sep : Z) (s : jsstring) : split sep s <> [].
Proof.
  destruct s as [|c r]; simpl; [discriminate|].
  destruct (c =? sep); [discriminate|].
  destruct (split sep r); discriminate.
Qed.

(** A field that holds no separator is split off whole. *)
Lemma split_field (sep : Z) (a b : jsstring) :
  ~ In sep a -> split sep (a ++ sep :: b) = a :: split sep b.
Proof.
  induction a as [|c a IH]; intros N.
  - apply split_sep.
  - cbn [app split].
    destruct (Z.eqb_spec c sep) as [->|_]; [exfalso; apply N; now left|].
    rewrite IH by (intros I; apply N; now right). reflexivity.
Qed.

Lemma split_last (sep : Z) (a : jsstring) :
  ~ In sep a -> split sep a = [a].
Proof.
  induction a as [|c a IH]; intros N; [reflexivity|].
  cbn [split].
  destruct (Z.eqb_spec c sep) as [->|_]; [exfalso; apply N; now left|].
  rewrite IH by (intros I; apply N; now right). reflexivity.
Qed.

(** There is one part more than there are separators. *)
Lemma split_length (sep : Z) (s : jsstring) :
  length (split sep s) = S (count_occ Z.eq_dec s sep).
Proof.
  induction s as [|c r IH]; [reflexivity|].
  cbn [split count_occ].
  destruct (Z.eqb_spec c sep) as [->|N].
  - destruct (Z.eq_dec sep sep); [|congruence]. simpl. rewrite IH. reflexivity.
  - destruct (Z.eq_dec c sep); [congruence|].
    destruct (split sep r) eqn:E; [exfalso; exact (split_nonempty _ _ E)|].
    simpl in *. exact IH.
Qed.

Lemma strOr_spec (a b : jsstring) :
  (a = [] -> strOr a b = b) /\ (a <> [] -> strOr a b = a).
Proof. destruct a; simpl; split; congruence. Qed.

(** The loop body, in terms of the codes of the line. *)
Lemma processLine_codes `{Host} (inputFile : jsstring)
    (entries : entriesMap) (line : jsstring) :
  processLine inputFile entries line
  = forEach addCode (codesOfLine inputFile line) entries.
Proof.
  unfold processLine, codesOfLine.
  destruct (parseLine inputFile line) as [r|]; [|reflexivity].
  cbv zeta.
  destruct (str_eqb (country_name r) (js "中国")) eqn:E; cbn [negb].
  - destruct (createCountryCodes _ _ _ _ _) as [|k l]; reflexivity.
  - unfold createCountryCodes, getStandardCountryCode. rewrite E. reflexivity.
Qed.

(** C6.  For every line of the pipe-delimited text format: the trimmed
    line is split on the pipe character and its first four parts are the
    fields country, region, city, isp of the record; an empty city falls
    back to the region, an empty isp to the unknown sentinel "未知"; a line
    with fewer than four parts (fewer than three pipes) gives no record,
    and the driver leaves the table as it is. *)
Theorem parseTextLine_spec (line : jsstring) :
  ((count_occ Z.eq_dec (trim line) PIPE < 3)%nat ->
     parseTextLine line = None
     /\ forall (H : Host) inputFile entries,
          isIpdb inputFile = false ->
          processLine inputFile entries line = Ok entries)
  /\ ((3 <= count_occ Z.eq_dec (trim line) PIPE)%nat ->
        parseTextLine line <> None)
  /\ (forall country region city isp rest,
        ~ In PIPE country -> ~ In PIPE region -> ~ In PIPE city ->
        ~ In PIPE isp ->
        (rest = [] \/ exists more, rest = PIPE :: more) ->
        trim line = country ++ PIPE :: region ++ PIPE :: city
                            ++ PIPE :: isp ++ rest ->
        parseTextLine line
        = Some (mkRecord country region
                         (if str_eqb city [] then region else city)
                         (if str_eqb isp [] then js "未知" else isp))).
Proof.
  split; [|split].
  - intros Hc.
    assert (E : parseTextLine line = None).
    { unfold parseTextLine. rewrite split_length.
      replace (S (count_occ Z.eq_dec (trim line) PIPE) <? 4)%nat with true
        by (symmetry; apply Nat.ltb_lt; lia).
      reflexivity. }
    split; [exact E|].
    intros H inputFile entries Hf.
    unfold processLine, parseLine. rewrite Hf, E. reflexivity.
  - intros Hc. unfold parseTextLine. rewrite split_length.
    replace (S (count_occ Z.eq_dec (trim line) PIPE) <? 4)%nat with false
      by (symmetry; apply Nat.ltb_ge; lia).
    discriminate.
  - intros country region city isp rest Nc Nr Nci Ni Hrest E.
    unfold parseTextLine. rewrite E.
    rewrite (split_field _ _ _ Nc), (split_field _ _ _ Nr),
      (split_field _ _ _ Nci).
    assert (S4 : exists tl, split PIPE (isp ++ rest) = isp :: tl).
    { destruct Hrest as [->|[more ->]].
      - rewrite app_nil_r, (split_last _ _ Ni). eauto.
      - rewrite (split_field _ _ _ Ni). eauto. }
    destruct S4 as [tl ->]. cbn [length Nat.ltb Nat.leb part nth].
    f_equal. f_equal.
    + destruct city; reflexivity.
    + destruct isp; reflexivity.
Qed.

Lemma parseTextLine_spec_witness :
  parseTextLine (js "short|line") = None
  /\ parseTextLine (js "  中国|广东||  ")
     = Some (mkRecord (js "中国") (js "广东") (js "广东") (js "未知")).
Proof.
  split.
  - refine (proj1 (proj1 (parseTextLine_spec (js "short|line")) _)).
    vm_compute. lia.
  - refine (proj2 (proj2 (parseTextLine_spec (js "  中国|广东||  ")))
                  (js "中国") (js "广东") [] [] [] _ _ _ _ _ _);
      vm_compute; intuition discriminate.
Defined.

(* ================================================================== *)
(** ** Code generation *)

Lemma getStandardCountryCode_china :
  getStandardCountryCode (js "中国") = Some (js "CN").
Proof. reflexivity. Qed.

Lemma createCountryCodes_other `{Host}
    (country region city : jsstring) (v isp : option jsstring) :
  country <> js "中国" -> createCountryCodes country region city v isp = [].
Proof.
  intros N. unfold createCountryCodes, getStandardCountryCode.
  apply str_eqb_neq in N. rewrite N. destruct v, isp; reflexivity.
Qed.

Lemma createCountryCodes_long `{Host}
    (region city ipVersion isp : jsstring) :
  city <> [] -> city <> region ->
  createCountryCodes (js "中国") region city (Some ipVersion) (Some isp)
  = [ ipVersion ++ js "-" ++ toStr (getIspCode isp) ++ js "-"
                ++ toStr (getStandardRegionCode region);
      (ipVersion ++ js "-" ++ toStr (getIspCode isp) ++ js "-"
                 ++ toStr (getStandardRegionCode region))
        ++ js "-" ++ getCityPinyin city ].
Proof.
  intros N1 N2. unfold createCountryCodes.
  rewrite getStandardCountryCode_china.
  apply str_eqb_neq in N1, N2. rewrite N1, N2. cbn [negb andb app].
  unfold HYPHEN. rewrite <- !app_assoc. reflexivity.
Qed.

Lemma createCountryCodes_short `{Host}
    (region city ipVersion isp : jsstring) :
  city = [] \/ city = region ->
  createCountryCodes (js "中国") region city (Some ipVersion) (Some isp)
  = [ ipVersion ++ js "-" ++ toStr (getIspCode isp) ++ js "-"
                ++ toStr (getStandardRegionCode region) ].
Proof.
  intros D. unfold createCountryCodes.
  rewrite getStandardCountryCode_china.
  replace (negb (str_eqb city []) && negb (str_eqb city region)) with false.
  - reflexivity.
  - symmetry. destruct D as [->| ->].
    + reflexivity.
    + rewrite str_eqb_refl. apply andb_false_r.
Qed.

(** C7.  For every record with country "中国", [createCountryCodes] always
    produces the short code "<ip_version>-<isp_code>-<region_code>", and
    after it the long code, the short one with "-" and the tone-free
    pinyin of the city appended, exactly when the city name is non-empty
    and differs from the region name.  The pipe-delimited line
    中国|广东|深圳|联通 yields exactly "4-LT-GD" and "4-LT-GD-shenzhen" (the
    [pinyin] package romanizing 深圳 as shen, zhen), and the record
    中国, 北京, 北京, 电信, whose city is its region, yields "4-DX-BJ"
    only. *)
Theorem createCountryCodes_china `{Host}
    (region city ipVersion isp : jsstring) :
  let short := ipVersion ++ js "-" ++ toStr (getIspCode isp) ++ js "-"
                         ++ toStr (getStandardRegionCode region) in
  (city <> [] /\ city <> region ->
     createCountryCodes (js "中国") region city (Some ipVersion) (Some isp)
     = [short; short ++ js "-" ++ getCityPinyin city])
  /\ (city = [] \/ city = region ->
        createCountryCodes (js "中国") region city (Some ipVersion) (Some isp)
        = [short])
  /\ (forall inputFile,
        isIpdb inputFile = false ->
        concat (concat (pinyin (js "深圳"))) = js "shenzhen" ->
        codesOfLine inputFile (js "中国|广东|深圳|联通")
        = [js "4-LT-GD"; js "4-LT-GD-shenzhen"]
        /\ buildEntries inputFile [js "中国|广东|深圳|联通"]
           = Ok [(js "4-LT-GD", exampleCidrs);
                 (js "4-LT-GD-shenzhen", exampleCidrs)])
  /\ (forall inputFile,
        isIpdb inputFile = false ->
        codesOfLine inputFile (js "中国|北京|北京|电信") = [js "4-DX-BJ"]
        /\ buildEntries inputFile [js "中国|北京|北京|电信"]
           = Ok [(js "4-DX-BJ", exampleCidrs)])
  /\ (forall inputFile,
        isIpdb inputFile = true ->
        codesOfLine inputFile
          (js "中国" ++ [TAB] ++ js "北京" ++ [TAB] ++ js "北京" ++ [TAB]
              ++ js "电信")
        = [js "4-DX-BJ"]).
Proof.
  cbv zeta. split; [|split; [|split; [|split]]].
  - intros [N1 N2]. apply createCountryCodes_long; assumption.
  - apply createCountryCodes_short.
  - intros inputFile Hf Hp.
    assert (C : codesOfLine inputFile (js "中国|广东|深圳|联通")
                = [js "4-LT-GD"; js "4-LT-GD-shenzhen"]).
    { unfold codesOfLine, parseLine. rewrite Hf.
      change (parseTextLine (js "中国|广东|深圳|联通"))
        with (Some (mkRecord (js "中国") (js "广东") (js "深圳") (js "联通"))).
      cbn [country_name region_name city_name isp_domain].
      rewrite createCountryCodes_long
        by (vm_compute; discriminate).
      unfold getCityPinyin. rewrite Hp. reflexivity. }
    split; [exact C|].
    unfold buildEntries. cbn [forEach].
    rewrite processLine_codes, C. reflexivity.
  - intros inputFile Hf.
    assert (C : codesOfLine inputFile (js "中国|北京|北京|电信")
                = [js "4-DX-BJ"]).
    { unfold codesOfLine, parseLine. rewrite Hf.
      change (parseTextLine (js "中国|北京|北京|电信"))
        with (Some (mkRecord (js "中国") (js "北京") (js "北京") (js "电信"))).
      cbn [country_name region_name city_name isp_domain].
      rewrite createCountryCodes_short by (right; reflexivity).
      reflexivity. }
    split; [exact C|].
    unfold buildEntries. cbn [forEach].
    rewrite processLine_codes, C. reflexivity.
  - intros inputFile Hf.
    unfold codesOfLine, parseLine. rewrite Hf.
    change (parseIpdbEntry
              (trim (js "中国" ++ [TAB] ++ js "北京" ++ [TAB] ++ js "北京"
                        ++ [TAB] ++ js "电信")))
      with (Some (mkRecord (js "中国") (js "北京") (js "北京") (js "电信"))).
    cbn [country_name region_name city_name isp_domain].
    rewrite createCountryCodes_short by (right; reflexivity).
    reflexivity.
Qed.

Lemma createCountryCodes_china_witness :
  @createCountryCodes RefHost.host (js "中国") (js "广东") (js "深圳")
                      (Some (js "4")) (Some (js "联通"))
  = [js "4-LT-GD"; js "4-LT-GD-shenzhen"]
  /\ @codesOfLine RefHost.host (js "in.txt") (js "中国|广东|深圳|联通")
     = [js "4-LT-GD"; js "4-LT-GD-shenzhen"].
Proof.
  pose proof (@createCountryCodes_china RefHost.host
                (js "广东") (js "深圳") (js "4") (js "联通")) as T.
  cbv zeta in T. destruct T as (L & _ & P & _). split.
  - refine (eq_trans (L _) _).
    + split; vm_compute; discriminate.
    + reflexivity.
  - exact (proj1 (P (js "in.txt") eq_refl eq_refl)).
Defined.

(* ================================================================== *)
(** ** The table of the driver *)

Lemma Map_set_new (m : entriesMap) (k : jsstring) (v : list cidr) :
  assoc k m = None -> Map_set m k v = m ++ [(k, v)].
Proof.
  induction m as [|[k' v'] m IH]; simpl; [reflexivity|].
  destruct (str_eqb k k'); [discriminate|].
  intros A. rewrite IH by assumption. reflexivity.
Qed.

Lemma Map_set_keys (m : entriesMap) (k : jsstring) (v a : list cidr) :
  assoc k m = Some a -> map fst (Map_set m k v) = map fst m.
Proof.
  induction m as [|[k' v'] m IH]; simpl; [discriminate|].
  destruct (str_eqb k k'); [reflexivity|].
  intros A. simpl. rewrite IH by assumption. reflexivity.
Qed.

Lemma assoc_app_new {V} (m : list (jsstring * V)) (k : jsstring) (v : V) :
  assoc k m = None -> assoc k (m ++ [(k, v)]) = Some v.
Proof.
  induction m as [|[k' v'] m IH]; simpl.
  - rewrite str_eqb_refl. reflexivity.
  - destruct (str_eqb k k'); [discriminate | exact IH].
Qed.

Lemma existsb_keys {V} (m : list (jsstring * V)) (k : jsstring) :
  existsb (str_eqb k) (map fst m)
  = match assoc k m with Some _ => true | None => false end.
Proof.
  induction m as [|[k' v'] m IH]; simpl; [reflexivity|].
  destruct (str_eqb k k'); [reflexivity | exact IH].
Qed.

Lemma Map_set_placeholders (m : entriesMap) (k : jsstring) (v : list cidr) :
  Forall placeholders m -> placeholders (k, v) ->
  Forall placeholders (Map_set m k v).
Proof.
  intros Hm Hv. induction Hm as [|[k' v'] m He Hm IH]; simpl.
  - constructor; [assumption | constructor].
  - destruct (str_eqb k k') eqn:E.
    + constructor; [|assumption]. exact Hv.
    + constructor; assumption.
Qed.

Lemma assoc_Forall {V} (P : jsstring * V -> Prop) (m : list (jsstring * V))
    (k : jsstring) (v : V) :
  Forall P m -> assoc k m = Some v -> P (k, v).
Proof.
  intros F A. apply assoc_Some_In in A.
  rewrite Forall_forall in F. exact (F _ A).
Qed.

Lemma Map_set_last (m : entriesMap) (k : jsstring) (v v' : list cidr) :
  assoc k m = None -> Map_set (m ++ [(k, v)]) k v' = m ++ [(k, v')].
Proof.
  induction m as [|[k0 v0] m IH]; simpl.
  - rewrite str_eqb_refl. reflexivity.
  - destruct (str_eqb k k0); [discriminate|].
    intros A. rewrite IH by assumption. reflexivity.
Qed.

(** One code added: it never throws, the key is seen, and the entries
    stay well formed. *)
Lemma addCode_ok (m : entriesMap) (k : jsstring) :
  Forall placeholders m ->
  exists m', addCode m k = Ok m'
             /\ map fst m' = seeKey (map fst m) k
             /\ Forall placeholders m'.
Proof.
  intros Hm. unfold addCode, Map_has, Map_get, seeKey.
  rewrite existsb_keys.
  destruct (assoc k m) as [arr|] eqn:A; cbn [negb].
  - rewrite A. eexists. split; [reflexivity|]. split.
    + eapply Map_set_keys; eassumption.
    + apply Map_set_placeholders; [assumption|].
      pose proof (assoc_Forall _ _ _ _ Hm A) as [Hn Hf].
      split; cbn [snd] in *.
      * destruct arr; [congruence | discriminate].
      * apply Forall_app; split; [assumption|].
        repeat constructor.
  - rewrite (Map_set_new _ _ _ A), (assoc_app_new _ _ _ A).
    rewrite (Map_set_last _ _ _ _ A).
    eexists. split; [reflexivity|]. split.
    + rewrite map_app. reflexivity.
    + apply Forall_app; split; [assumption|].
      constructor; [|constructor].
      split; [discriminate | repeat constructor].
Qed.

(** The codes of a scan added one after the other. *)
Lemma forEach_addCode (codes : list jsstring) (m : entriesMap) :
  Forall placeholders m ->
  exists m', forEach addCode codes m = Ok m'
             /\ map fst m' = fold_left seeKey codes (map fst m)
             /\ Forall placeholders m'.
Proof.
  revert m; induction codes as [|k codes IH]; intros m Hm; cbn [forEach].
  - exists m. auto.
  - destruct (addCode_ok m k Hm) as (m1 & -> & K1 & P1). cbn [bind].
    destruct (IH m1 P1) as (m2 & E2 & K2 & P2).
    exists m2. rewrite E2, K2, K1. auto.
Qed.

Lemma forEach_app {A S} (body : S -> A -> result S) (l1 l2 : list A) (s : S) :
  forEach body (l1 ++ l2) s = (s' <- forEach body l1 s ;; forEach body l2 s').
Proof.
  revert s; induction l1 as [|x l1 IH]; intros s; cbn [app forEach bind].
  - reflexivity.
  - destruct (body s x); cbn [bind]; [apply IH | reflexivity].
Qed.

(** The scan of the lines is the scan of all their codes. *)
Lemma forEach_processLine `{Host} (inputFile : jsstring)
    (lines : list jsstring) (m : entriesMap) :
  forEach (processLine inputFile) lines m
  = forEach addCode (flat_map (codesOfLine inputFile) lines) m.
Proof.
  revert m; induction lines as [|l lines IH]; intros m;
    cbn [forEach flat_map]; [reflexivity|].
  rewrite forEach_app, processLine_codes.
  destruct (forEach addCode (codesOfLine inputFile l) m); cbn [bind];
    [apply IH | reflexivity].
Qed.

(** *** First-seen order *)

Lemma filter_filter_and {A} (p q : A -> bool) (l : list A) :
  filter p (filter q l) = filter (fun x => p x && q x) l.
Proof.
  induction l as [|x l IH]; simpl; [reflexivity|].
  destruct (q x); simpl.
  - rewrite andb_true_r. destruct (p x); rewrite IH; reflexivity.
  - rewrite andb_false_r. exact IH.
Qed.

Lemma unseen_app (acc : list jsstring) (k x : jsstring) :
  negb (existsb (str_eqb x) (acc ++ [k]))
  = negb (existsb (str_eqb x) acc) && negb (str_eqb x k).
Proof.
  rewrite existsb_app. simpl. rewrite orb_false_r, negb_orb. reflexivity.
Qed.

Lemma fold_seeKey (l acc : list jsstring) :
  fold_left seeKey l acc
  = acc ++ filter (fun x => negb (existsb (str_eqb x) acc)) (firstSeen l).
Proof.
  revert acc; induction l as [|k l IH]; intros acc; cbn [fold_left firstSeen].
  - simpl. rewrite app_nil_r. reflexivity.
  - rewrite IH. unfold seeKey. cbn [filter].
    destruct (existsb (str_eqb k) acc) eqn:E; cbn [negb].
    + f_equal. rewrite filter_filter_and. apply filter_ext.
      intros x. destruct (str_eqb x k) eqn:X; cbn [negb].
      * apply str_eqb_eq in X; subst. rewrite E. reflexivity.
      * rewrite andb_true_r. reflexivity.
    + rewrite <- app_assoc. cbn [app]. do 2 f_equal.
      rewrite filter_filter_and. apply filter_ext.
      intros x. apply unseen_app.
Qed.

Lemma fold_seeKey_nil (l : list jsstring) :
  fold_left seeKey l [] = firstSeen l.
Proof.
  rewrite fold_seeKey. cbn [app existsb negb].
  induction (firstSeen l) as [|x r IH]; simpl; [reflexivity|].
  rewrite IH. reflexivity.
Qed.

Lemma firstSeen_In (l : list jsstring) (k : jsstring) :
  In k (firstSeen l) <-> In k l.
Proof.
  induction l as [|x l IH]; cbn [firstSeen]; [tauto|].
  simpl. rewrite filter_In, IH. split.
  - intros [E|[I _]]; auto.
  - intros [E|I]; [now left|].
    destruct (str_eqb k x) eqn:X.
    + apply str_eqb_eq in X. left; congruence.
    + right. split; [assumption | reflexivity].
Qed.

Lemma firstSeen_NoDup (l : list jsstring) : NoDup (firstSeen l).
Proof.
  induction l as [|x l IH]; cbn [firstSeen]; constructor.
  - rewrite filter_In. intros [_ C].
    rewrite str_eqb_refl in C. discriminate C.
  - apply NoDup_filter. exact IH.
Qed.

(** The table that the scan builds. *)
Lemma buildEntries_ok `{Host} (inputFile : jsstring) (lines : list jsstring) :
  exists entries,
    buildEntries inputFile lines = Ok entries
    /\ map fst entries = firstSeen (flat_map (codesOfLine inputFile) lines)
    /\ Forall placeholders entries.
Proof.
  unfold buildEntries. rewrite forEach_processLine.
  destruct (forEach_addCode (flat_map (codesOfLine inputFile) lines) [])
    as (m & E & K & P); [constructor|].
  exists m. rewrite E, K. cbn [map]. rewrite fold_seeKey_nil. auto.
Qed.

(* ================================================================== *)
(** ** The driver *)

Lemma codesOfLine_other `{Host} (inputFile line : jsstring) :
  isChinaLine inputFile line = false -> codesOfLine inputFile line = [].
Proof.
  unfold isChinaLine, codesOfLine.
  destruct (parseLine inputFile line) as [r|]; [|reflexivity].
  intros E. apply createCountryCodes_other. apply str_eqb_neq. exact E.
Qed.

Lemma flat_map_china `{Host} (inputFile : jsstring) (lines : list jsstring) :
  flat_map (codesOfLine inputFile) (filter (isChinaLine inputFile) lines)
  = flat_map (codesOfLine inputFile) lines.
Proof.
  induction lines as [|l lines IH]; cbn [filter flat_map]; [reflexivity|].
  destruct (isChinaLine inputFile l) eqn:E; cbn [flat_map].
  - rewrite IH. reflexivity.
  - rewrite (codesOfLine_other _ _ E). exact IH.
Qed.

Lemma placeholders_u32 (e : jsstring * list cidr) :
  placeholders e -> Forall (fun c : cidr => u32 (snd c)) (snd e).
Proof.
  intros [_ F]. eapply Forall_impl; [|exact F].
  intros c ->. unfold u32. cbn [snd]. lia.
Qed.

(** Every entry of a table that the scan built can be encoded, once its
    key fits the length field. *)
Lemma entries_encodable (entries : entriesMap) :
  Forall placeholders entries ->
  Forall (fun e : jsstring * list cidr =>
            u32 (jslength (utf8_encode (fst e)))) entries ->
  exists encoded,
    Forall2 (fun (e : jsstring * list cidr) b =>
               writeGeoIpEntry (fst e) (snd e) = Ok b) entries encoded.
Proof.
  induction entries as [|e entries IH]; intros P F.
  - exists []. constructor.
  - inversion P as [|? ? Pe P']; inversion F as [|? ? Fe F']; subst.
    destruct (IH P' F') as [enc E].
    eexists (_ :: enc). constructor; [|exact E].
    apply writeGeoIpEntry_eq; [assumption | apply placeholders_u32; assumption].
Qed.

(** The loop over the table appends the encoded entries in order. *)
Lemma forEach_entries (entries : entriesMap) (encoded : list bytes)
    (fileBuffer : bytes) :
  Forall2 (fun (e : jsstring * list cidr) b =>
             writeGeoIpEntry (fst e) (snd e) = Ok b) entries encoded ->
  forEach (fun fileBuffer (e : jsstring * list cidr) =>
             entryBuffer <- writeGeoIpEntry (fst e) (snd e) ;;
             Ok (Buffer_concat [fileBuffer; entryBuffer]))
          entries fileBuffer
  = Ok (fileBuffer ++ concat encoded).
Proof.
  intros F; revert fileBuffer.
  induction F as [|e b entries encoded E _ IH]; intros fileBuffer;
    cbn [forEach concat].
  - rewrite app_nil_r. reflexivity.
  - rewrite E. cbn [bind Buffer_concat concat]. rewrite IH.
    rewrite app_nil_r, <- app_assoc. reflexivity.
Qed.

Lemma encodeEntries_eq (entries : entriesMap) (encoded : list bytes) :
  u32 (Z.of_nat (length entries)) ->
  Forall2 (fun (e : jsstring * list cidr) b =>
             writeGeoIpEntry (fst e) (snd e) = Ok b) entries encoded ->
  encodeEntries entries
  = Ok (le32 (Z.of_nat (length entries)) ++ concat encoded).
Proof.
  intros N F. unfold encodeEntries.
  rewrite (writeUInt32LE_alloc _ N). cbn [bind].
  rewrite (forEach_entries _ _ _ F).
  cbn [Buffer_concat Buffer_alloc repeat concat app].
  rewrite app_nil_r. reflexivity.
Qed.

(** The run on an input file that exists and can be read. *)
Lemma generateGeoipDat_eq `{Host} (w : world)
    (inputFile outputFile : jsstring) (content : bytes) :
  fileAt w inputFile = Some (RegularFile content) ->
  generateGeoipDat w inputFile outputFile
  = (entries <- buildEntries inputFile (nonBlankLines (utf8_decode content)) ;;
     fileBuffer <- encodeEntries entries ;;
     w1 <- writeFileSync w outputFile fileBuffer ;;
     Ok (console_print w1
           (ConsoleLog (js "Generated " ++ outputFile ++ js " with "
                          ++ decimal (length entries) ++ js " entries")))).
Proof.
  intros E. unfold generateGeoipDat, existsSync, readFileSync.
  rewrite E. reflexivity.
Qed.

(** A write that returns has stored the data under the path. *)
Lemma writeFileSync_read (w w1 : world) (path : jsstring) (data : bytes) :
  writeFileSync w path data = Ok w1 ->
  fileAt w1 path = Some (RegularFile data).
Proof.
  unfold writeFileSync. destruct (writable w (resolve w path));
    [|discriminate].
  intros [= <-]. unfold fileAt. cbn [resolve nodes].
  rewrite str_eqb_refl. reflexivity.
Qed.

Lemma writeFileSync_writable (w : world) (path : jsstring) (data : bytes) :
  writable w (resolve w path) = true ->
  exists w1, writeFileSync w path data = Ok w1.
Proof. intros W. unfold writeFileSync. rewrite W. eauto. Qed.

Lemma writeFileSync_unwritable (w : world) (path : jsstring) (data : bytes) :
  writable w (resolve w path) = false ->
  writeFileSync w path data = Throw SystemError.
Proof. intros W. unfold writeFileSync. rewrite W. reflexivity. Qed.

Lemma fileAt_console_print (w : world) (m : consoleMsg) (path : jsstring) :
  fileAt (console_print w m) path = fileAt w path.
Proof. reflexivity. Qed.

(** C2.  For every input, with N the number of unique country codes that
    its processing yields (the size of the table, a 32-bit count whose
    keys are strings): the table holds the codes once each in the order in
    which the scan first saw them, and the output file of
    [generateGeoipDat] is the 4-byte little-endian count N followed by the
    N encoded entries, concatenated with no separator, in the order of the
    table.  The file is produced whenever the output path can be
    written. *)
Theorem generateGeoipDat_layout `{Host} (w : world)
    (inputFile outputFile : jsstring) (content : bytes) :
  fileAt w inputFile = Some (RegularFile content) ->
  exists entries,
    buildEntries inputFile (nonBlankLines (utf8_decode content)) = Ok entries
    /\ map fst entries
       = firstSeen (flat_map (codesOfLine inputFile)
                             (nonBlankLines (utf8_decode content)))
    /\ NoDup (map fst entries)
    /\ (u32 (Z.of_nat (length entries)) ->
        Forall (fun e : jsstring * list cidr =>
                  u32 (jslength (utf8_encode (fst e)))) entries ->
        exists encoded,
          Forall2 (fun (e : jsstring * list cidr) b =>
                     writeGeoIpEntry (fst e) (snd e) = Ok b) entries encoded
          /\ length encoded = length entries
          /\ readUInt32LE (le32 (Z.of_nat (length entries)))
             = Z.of_nat (length entries)
          /\ (forall w',
                generateGeoipDat w inputFile outputFile = Ok w' ->
                fileAt w' outputFile
                = Some (RegularFile (le32 (Z.of_nat (length entries))
                                       ++ concat encoded)))
          /\ (writable w (resolve w outputFile) = true ->
              exists w',
                generateGeoipDat w inputFile outputFile = Ok w'
                /\ fileAt w' outputFile
                   = Some (RegularFile (le32 (Z.of_nat (length entries))
                                          ++ concat encoded)))).
Proof.
  intros E.
  destruct (buildEntries_ok inputFile (nonBlankLines (utf8_decode content)))
    as (entries & B & K & P).
  exists entries. split; [exact B|]. split; [exact K|]. split.
  - rewrite K. apply firstSeen_NoDup.
  - intros N F. destruct (entries_encodable entries P F) as [encoded F2].
    exists encoded. split; [exact F2|]. split.
    + symmetry. eapply Forall2_length; eassumption.
    + split; [apply readUInt32LE_le32; assumption|].
      assert (G : forall w',
                 generateGeoipDat w inputFile outputFile = Ok w' ->
                 fileAt w' outputFile
                 = Some (RegularFile (le32 (Z.of_nat (length entries))
                                        ++ concat encoded))).
      { intros w'. rewrite (generateGeoipDat_eq _ _ _ _ E), B. cbn [bind].
        rewrite (encodeEntries_eq _ _ N F2). cbn [bind].
        destruct (writeFileSync w outputFile _) as [w1|] eqn:W; cbn [bind];
          [|discriminate].
        intros [= <-]. rewrite fileAt_console_print.
        exact (writeFileSync_read _ _ _ _ W). }
      split; [exact G|].
      intros W.
      destruct (writeFileSync_writable w outputFile
                  (le32 (Z.of_nat (length entries)) ++ concat encoded) W)
        as [w1 W1].
      assert (R : generateGeoipDat w inputFile outputFile
                  = Ok (console_print w1
                          (ConsoleLog (js "Generated " ++ outputFile
                                          ++ js " with "
                                          ++ decimal (length entries)
                                          ++ js " entries")))).
      { rewrite (generateGeoipDat_eq _ _ _ _ E), B. cbn [bind].
        rewrite (encodeEntries_eq _ _ N F2). cbn [bind].
        rewrite W1. reflexivity. }
      eexists. split; [exact R | exact (G _ R)].
Qed.

Lemma generateGeoipDat_layout_witness :
  let w := RefHost.disk (js "in.txt")
                        (utf8_encode (js "中国|北京|北京|电信")) true in
  exists w',
    @generateGeoipDat RefHost.host w (js "in.txt") (js "geoip.dat") = Ok w'
    /\ fileAt w' (js "geoip.dat")
       = Some (RegularFile
                 ([1; 0; 0; 0]
                  ++ [0x0A; 7; 0; 0; 0; 52; 45; 68; 88; 45; 66; 74;
                      0x12; 8; 0; 0; 0; 192; 168; 1; 0; 24; 0; 0; 0;
                      0x18; 0x00])).
Proof.
  intros w.
  destruct (@generateGeoipDat_layout RefHost.host w (js "in.txt")
              (js "geoip.dat") (utf8_encode (js "中国|北京|北京|电信")) eq_refl)
    as (entries & B & _ & _ & F).
  vm_compute in B. injection B as <-.
  destruct F as (encoded & F2 & _ & _ & _ & G).
  - unfold u32; vm_compute; split; [discriminate | reflexivity].
  - repeat constructor; vm_compute; discriminate.
  - destruct (G eq_refl) as (w' & R & Fi).
    exists w'. split; [exact R|]. rewrite Fi.
    inversion F2 as [|e b l l' E1 F3]; subst.
    inversion F3; subst.
    vm_compute in E1. injection E1 as <-. reflexivity.
Defined.

(** C8.  In every run of the driver only the records whose country name
    is "中国" contribute: every other country name produces no code, its
    line leaves the table as it is, the table is the one that the lines
    with country "中国" alone would give, and every key of the table is a
    code of such a line. *)
Theorem only_china_contributes `{Host} (inputFile : jsstring) :
  (forall country region city v isp,
      country <> js "中国" ->
      createCountryCodes country region city v isp = [])
  /\ (forall entries line r,
        parseLine inputFile line = Some r ->
        country_name r <> js "中国" ->
        codesOfLine inputFile line = []
        /\ processLine inputFile entries line = Ok entries)
  /\ (forall lines,
        buildEntries inputFile lines
        = buildEntries inputFile (filter (isChinaLine inputFile) lines))
  /\ (forall lines entries k,
        buildEntries inputFile lines = Ok entries ->
        In k (map fst entries) ->
        exists line r,
          In line lines /\ parseLine inputFile line = Some r
          /\ country_name r = js "中国"
          /\ In k (codesOfLine inputFile line)).
Proof.
  split; [|split; [|split]].
  - intros; apply createCountryCodes_other; assumption.
  - intros entries line r P N.
    assert (C : codesOfLine inputFile line = []).
    { apply codesOfLine_other. unfold isChinaLine. rewrite P.
      apply str_eqb_neq; assumption. }
    split; [exact C|]. rewrite processLine_codes, C. reflexivity.
  - intros lines. unfold buildEntries.
    rewrite !forEach_processLine, flat_map_china. reflexivity.
  - intros lines entries k B I.
    destruct (buildEntries_ok inputFile lines) as (entries' & B' & K & _).
    rewrite B in B'. injection B' as <-.
    rewrite K in I. apply firstSeen_In, in_flat_map in I.
    destruct I as (line & IL & IK). exists line.
    destruct (isChinaLine inputFile line) eqn:C.
    + unfold isChinaLine in C.
      destruct (parseLine inputFile line) as [r|] eqn:P; [|discriminate C].
      exists r. apply str_eqb_eq in C. auto.
    + rewrite (codesOfLine_other _ _ C) in IK. destruct IK.
Qed.

Lemma only_china_contributes_witness :
  @codesOfLine RefHost.host (js "in.txt") (js "美国|加州|洛杉矶|电信") = []
  /\ @buildEntries RefHost.host (js "in.txt")
       [js "美国|加州|洛杉矶|电信"; js "中国|北京|北京|电信"]
     = Ok [(js "4-DX-BJ", exampleCidrs)].
Proof.
  destruct (@only_china_contributes RefHost.host (js "in.txt"))
    as (_ & L & F & _).
  split.
  - refine (proj1 (L [] (js "美国|加州|洛杉矶|电信")
                     (mkRecord (js "美国") (js "加州") (js "洛杉矶") (js "电信"))
                     eq_refl _)).
    vm_compute; discriminate.
  - rewrite F. reflexivity.
Defined.

(** C9.  For every input path that does not exist,
    [generateGeoipDat inputFile outputFile] reports the error on the error
    stream and returns without writing: no file is created or changed, the
    output path in particular is as it was, and the message that reports
    the failure is the only thing printed. *)
Theorem generateGeoipDat_missing_input `{Host} (w : world)
    (inputFile outputFile : jsstring) :
  fileAt w inputFile = None ->
  exists w',
    generateGeoipDat w inputFile outputFile = Ok w'
    /\ nodes w' = nodes w
    /\ resolve w' = resolve w
    /\ fileAt w' outputFile = fileAt w outputFile
    /\ console w'
       = console w ++ [ConsoleError (js "Error: Input file " ++ inputFile
                                        ++ js " does not exist.")].
Proof.
  intros E. unfold generateGeoipDat, existsSync. rewrite E. cbn [negb].
  eexists. split; [reflexivity|]. repeat split.
Qed.

Lemma generateGeoipDat_missing_input_witness :
  exists w',
    @generateGeoipDat RefHost.host RefHost.emptyDisk
                      (js "qqwry.ipdb") (js "geoip.dat")
    = Ok w'
    /\ fileAt w' (js "geoip.dat") = None
    /\ console w'
       = [ConsoleError (js "Error: Input file " ++ js "qqwry.ipdb"
                           ++ js " does not exist.")].
Proof.
  destruct (@generateGeoipDat_missing_input RefHost.host RefHost.emptyDisk
              (js "qqwry.ipdb") (js "geoip.dat") eq_refl)
    as (w' & G & _ & _ & Fo & C).
  exists w'. split; [exact G|]. split; [exact Fo | exact C].
Defined.

(** C10, as it is written, fails: the write of the output file is not
    guarded, so when the output path cannot be written (its directory is
    missing, say) the run ends with the exception of [writeFileSync]
    instead of completing. *)
Lemma generateGeoipDat_unwritable_output :
  ~ (forall (w : world) (inputFile outputFile : jsstring) (content : bytes),
        fileAt w inputFile = Some (RegularFile content) ->
        (forall line,
            In line (split LF (utf8_decode content)) ->
            trim line = []
            \/ @parseLine RefHost.host inputFile line = None
            \/ exists r, @parseLine RefHost.host inputFile line = Some r
                         /\ country_name r <> js "中国") ->
        exists w',
          @generateGeoipDat RefHost.host w inputFile outputFile = Ok w'
          /\ fileAt w' outputFile = Some (RegularFile [0; 0; 0; 0])).
Proof.
  intros C.
  destruct (C (RefHost.disk (js "in.txt") [] false)
              (js "in.txt") (js "nodir/geoip.dat") [] eq_refl)
    as (w' & G & _).
  - intros line I. vm_compute in I. destruct I as [<-|[]].
    left; reflexivity.
  - vm_compute in G. discriminate G.
Qed.

(** C10 (amended).  For every existing input file of which no line yields
    an entry (each line is blank, or malformed, or a record of another
    country: the empty file too), [generateGeoipDat] makes exactly one
    write, of the four bytes 00 00 00 00 (the count zero with no entry
    after it), to the output path.  When the output path can be written
    the run completes and the output file, created or replaced, holds
    exactly those four bytes; when it cannot, the exception of the write
    ends the run. *)
Theorem generateGeoipDat_no_entries `{Host} (w : world)
    (inputFile outputFile : jsstring) (content : bytes) :
  fileAt w inputFile = Some (RegularFile content) ->
  (forall line,
      In line (split LF (utf8_decode content)) ->
      trim line = []
      \/ parseLine inputFile line = None
      \/ exists r, parseLine inputFile line = Some r
                   /\ country_name r <> js "中国") ->
  generateGeoipDat w inputFile outputFile
  = (w1 <- writeFileSync w outputFile [0; 0; 0; 0] ;;
     Ok (console_print w1
           (ConsoleLog (js "Generated " ++ outputFile
                           ++ js " with 0 entries"))))
  /\ (writable w (resolve w outputFile) = true ->
      exists w',
        generateGeoipDat w inputFile outputFile = Ok w'
        /\ fileAt w' outputFile = Some (RegularFile [0; 0; 0; 0])
        /\ console w'
           = console w ++ [ConsoleLog (js "Generated " ++ outputFile
                                           ++ js " with 0 entries")])
  /\ (writable w (resolve w outputFile) = false ->
      generateGeoipDat w inputFile outputFile = Throw SystemError)
  /\ (forall w', generateGeoipDat w inputFile outputFile = Ok w' ->
                 fileAt w' outputFile = Some (RegularFile [0; 0; 0; 0])).
Proof.
  intros E Hl.
  assert (C : flat_map (codesOfLine inputFile)
                       (nonBlankLines (utf8_decode content)) = []).
  { unfold nonBlankLines.
    induction (split LF (utf8_decode content)) as [|l ls IH];
      [reflexivity|].
    cbn [filter].
    assert (IH' : flat_map (codesOfLine inputFile)
                    (filter (fun line => negb (str_eqb (trim line) [])) ls)
                  = []) by (apply IH; intros; apply Hl; now right).
    destruct (Hl l (or_introl eq_refl)) as [B|[N|(r & P & N)]].
    - rewrite B. cbn [str_eqb negb]. exact IH'.
    - destruct (negb (str_eqb (trim l) [])); [|exact IH'].
      cbn [flat_map]. rewrite IH'. unfold codesOfLine. rewrite N. reflexivity.
    - destruct (negb (str_eqb (trim l) [])); [|exact IH'].
      cbn [flat_map]. rewrite IH'. unfold codesOfLine. rewrite P.
      rewrite (createCountryCodes_other _ _ _ _ _ N). reflexivity. }
  assert (G : generateGeoipDat w inputFile outputFile
              = (w1 <- writeFileSync w outputFile [0; 0; 0; 0] ;;
                 Ok (console_print w1
                       (ConsoleLog (js "Generated " ++ outputFile
                                       ++ js " with 0 entries"))))).
  { rewrite (generateGeoipDat_eq _ _ _ _ E). unfold buildEntries.
    rewrite forEach_processLine, C. reflexivity. }
  assert (R : forall w', generateGeoipDat w inputFile outputFile = Ok w' ->
                         fileAt w' outputFile = Some (RegularFile [0; 0; 0; 0])).
  { intros w'. rewrite G.
    destruct (writeFileSync w outputFile [0; 0; 0; 0]) as [w1|] eqn:W;
      cbn [bind]; [|discriminate].
    intros [= <-]. rewrite fileAt_console_print.
    exact (writeFileSync_read _ _ _ _ W). }
  split; [exact G|]. split; [|split; [|exact R]].
  - intros W. rewrite G in R |- *. unfold writeFileSync in *.
    rewrite W in *. cbn [bind] in *.
    eexists. split; [reflexivity|]. split; [apply R; reflexivity|].
    reflexivity.
  - intros W. rewrite G, (writeFileSync_unwritable _ _ _ W). reflexivity.
Qed.

Lemma generateGeoipDat_no_entries_witness :
  let content := utf8_encode (js "  " ++ [LF] ++ js "bad|line" ++ [LF]
                                 ++ js "美国|加州|洛杉矶|电信" ++ [LF]) in
  let w := RefHost.disk (js "in.txt") content true in
  exists w',
    @generateGeoipDat RefHost.host w (js "in.txt") (js "geoip.dat") = Ok w'
    /\ fileAt w' (js "geoip.dat") = Some (RegularFile [0; 0; 0; 0]).
Proof.
  intros content w.
  destruct (@generateGeoipDat_no_entries RefHost.host w (js "in.txt")
              (js "geoip.dat") content eq_refl) as (_ & G & _).
  - intros line I. vm_compute in I.
    destruct I as [<-|[<-|[<-|[<-|[]]]]].
    + left; reflexivity.
    + right; left; reflexivity.
    + right; right. eexists. split; [reflexivity|].
      vm_compute; discriminate.
    + left; reflexivity.
  - destruct (G eq_refl) as (w' & R & Fi & _).
    exists w'. split; [exact R | exact Fi].
Defined.

(* ================================================================== *)
(** ** Further properties of the parser *)

(** X1.  [parseIpdbEntry] splits its argument on the tab: with fewer than
    three tabs there is no record; otherwise the first four parts are the
    fields, an empty country, region or isp becoming "未知", and an empty
    city becoming the second part as it was read, which is empty when the
    region itself was missing. *)
Theorem parseIpdbEntry_spec (entry : jsstring) :
  ((count_occ Z.eq_dec entry TAB < 3)%nat <-> parseIpdbEntry entry = None)
  /\ (forall country region city isp rest,
        ~ In TAB country -> ~ In TAB region -> ~ In TAB city ->
        ~ In TAB isp ->
        (rest = [] \/ exists more, rest = TAB :: more) ->
        entry = country ++ TAB :: region ++ TAB :: city
                        ++ TAB :: isp ++ rest ->
        parseIpdbEntry entry
        = Some (mkRecord
                  (if str_eqb country [] then js "未知" else country)
                  (if str_eqb region [] then js "未知" else region)
                  (if str_eqb city [] then region else city)
                  (if str_eqb isp [] then js "未知" else isp))).
Proof.
  split.
  - unfold parseIpdbEntry. rewrite split_length.
    destruct (Nat.ltb_spec (S (count_occ Z.eq_dec entry TAB)) 4).
    + split; [reflexivity | lia].
    + split; [lia | discriminate].
  - intros country region city isp rest Nc Nr Nci Ni Hrest ->.
    unfold parseIpdbEntry.
    rewrite (split_field _ _ _ Nc), (split_field _ _ _ Nr),
      (split_field _ _ _ Nci).
    assert (S4 : exists tl, split TAB (isp ++ rest) = isp :: tl).
    { destruct Hrest as [->|[more ->]].
      - rewrite app_nil_r, (split_last _ _ Ni). eauto.
      - rewrite (split_field _ _ _ Ni). eauto. }
    destruct S4 as [tl ->]. cbn [length Nat.ltb Nat.leb part nth].
    destruct country, region, city, isp; reflexivity.
Qed.

Lemma parseIpdbEntry_spec_witness :
  parseIpdbEntry ([TAB; TAB; TAB] ++ js "电信")
  = Some (mkRecord (js "未知") (js "未知") [] (js "电信")).
Proof.
  refine (proj2 (parseIpdbEntry_spec ([TAB; TAB; TAB] ++ js "电信"))
                [] [] [] (js "电信") [] _ _ _ _ _ _);
    vm_compute; intuition discriminate.
Defined.

Lemma dropWhile_snoc {A} (p : A -> bool) (s : list A) (w : A) :
  p w = true ->
  dropWhile p (s ++ [w])
  = match dropWhile p s with [] => [] | t => t ++ [w] end.
Proof.
  intros W. induction s as [|x s IH]; cbn [app dropWhile].
  - rewrite W. reflexivity.
  - destruct (p x); [exact IH | reflexivity].
Qed.

Lemma trimEnd_snoc (s : jsstring) (w : Z) :
  isWhiteSpace w = true -> trimEnd (s ++ [w]) = trimEnd s.
Proof.
  intros W. unfold trimEnd. rewrite rev_app_distr. cbn [rev app dropWhile].
  rewrite W. reflexivity.
Qed.

Lemma trim_snoc (s : jsstring) (w : Z) :
  isWhiteSpace w = true -> trim (s ++ [w]) = trim s.
Proof.
  intros W. unfold trim, trimStart. rewrite (dropWhile_snoc _ _ _ W).
  destruct (dropWhile isWhiteSpace s) as [|x t]; [reflexivity|].
  apply trimEnd_snoc; assumption.
Qed.

Lemma trim_app_ws (s ws : jsstring) :
  forallb isWhiteSpace ws = true -> trim (s ++ ws) = trim s.
Proof.
  revert s; induction ws as [|w ws IH]; intros s; cbn [forallb].
  - rewrite app_nil_r. reflexivity.
  - rewrite andb_true_iff. intros [W F].
    change (s ++ w :: ws) with (s ++ [w] ++ ws).
    rewrite app_assoc, (IH _ F). apply trim_snoc; assumption.
Qed.

Lemma trim_ws_app (ws s : jsstring) :
  forallb isWhiteSpace ws = true -> trim (ws ++ s) = trim s.
Proof.
  induction ws as [|w ws IH]; cbn [forallb app]; [reflexivity|].
  rewrite andb_true_iff. intros [W F].
  unfold trim, trimStart in *. cbn [dropWhile]. rewrite W. exact (IH F).
Qed.

(** Both branches of the loop see the line through [trim]. *)
Lemma parseLine_trim `{Host} (inputFile l l' : jsstring) :
  trim l = trim l' -> parseLine inputFile l = parseLine inputFile l'.
Proof.
  intros E. unfold parseLine, parseTextLine. rewrite E. reflexivity.
Qed.

(** X2.  White space around a line is not seen: a line with white space
    (spaces, tabs, a carriage return before the line feed) put before or
    after it gives the same record and does the same to the table, in the
    text branch and in the .ipdb branch. *)
Theorem processLine_surrounding_space `{Host}
    (inputFile before line after : jsstring) :
  forallb isWhiteSpace before = true ->
  forallb isWhiteSpace after = true ->
  parseLine inputFile (before ++ line ++ after) = parseLine inputFile line
  /\ forall entries,
       processLine inputFile entries (before ++ line ++ after)
       = processLine inputFile entries line.
Proof.
  intros B A.
  assert (P : parseLine inputFile (before ++ line ++ after)
              = parseLine inputFile line).
  { apply parseLine_trim.
    rewrite (trim_ws_app _ _ B). apply trim_app_ws; assumption. }
  split; [exact P|].
  intros entries. unfold processLine. rewrite P. reflexivity.
Qed.

Lemma processLine_surrounding_space_witness :
  @parseLine RefHost.host (js "in.txt")
             (js "  " ++ js "中国|北京|北京|电信" ++ [13])
  = @parseLine RefHost.host (js "in.txt") (js "中国|北京|北京|电信").
Proof.
  refine (proj1 (@processLine_surrounding_space RefHost.host (js "in.txt")
                   (js "  ") (js "中国|北京|北京|电信") [13] _ _));
    reflexivity.
Defined.

(** X3.  In the .ipdb branch an empty isp field at the end of the line is
    lost before the parser sees it: for three tab-free fields whose text
    is already trimmed, the line "country TAB region TAB city TAB" gives
    no record, although [parseIpdbEntry] itself accepts that text and
    gives it the isp "未知". *)
Theorem ipdb_trailing_tab_rejected `{Host}
    (inputFile country region city : jsstring) :
  isIpdb inputFile = true ->
  ~ In TAB country -> ~ In TAB region -> ~ In TAB city ->
  trim (country ++ TAB :: region ++ TAB :: city)
  = country ++ TAB :: region ++ TAB :: city ->
  parseLine inputFile (country ++ TAB :: region ++ TAB :: city ++ [TAB])
  = None
  /\ parseIpdbEntry (country ++ TAB :: region ++ TAB :: city ++ [TAB])
     = Some (mkRecord
               (if str_eqb country [] then js "未知" else country)
               (if str_eqb region [] then js "未知" else region)
               (if str_eqb city [] then region else city)
               (js "未知")).
Proof.
  intros F Nc Nr Nci T. split.
  - assert (E : trim (country ++ TAB :: region ++ TAB :: city ++ [TAB])
                = country ++ TAB :: region ++ TAB :: city).
    { transitivity (trim (country ++ TAB :: region ++ TAB :: city));
        [|exact T].
      change (country ++ TAB :: region ++ TAB :: city ++ [TAB])
        with (country ++ (TAB :: region) ++ (TAB :: city) ++ [TAB]).
      rewrite !app_assoc. rewrite trim_snoc by reflexivity.
      rewrite <- !app_assoc. reflexivity. }
    unfold parseLine. rewrite F. cbv zeta. rewrite E.
    unfold parseIpdbEntry.
    rewrite (split_field _ _ _ Nc), (split_field _ _ _ Nr),
      (split_last _ _ Nci). reflexivity.
  - unfold parseIpdbEntry.
    rewrite (split_field _ _ _ Nc), (split_field _ _ _ Nr),
      (split_field _ _ _ Nci). cbn [split length Nat.ltb Nat.leb part nth].
    destruct country, region, city; reflexivity.
Qed.

Lemma ipdb_trailing_tab_rejected_witness :
  @parseLine RefHost.host (js "qqwry.ipdb")
     (js "中国" ++ TAB :: js "北京" ++ TAB :: js "北京" ++ [TAB])
  = None.
Proof.
  refine (proj1 (@ipdb_trailing_tab_rejected RefHost.host (js "qqwry.ipdb")
                   (js "中国") (js "北京") (js "北京") _ _ _ _ _));
    vm_compute; intuition discriminate.
Defined.

(* ================================================================== *)
(** ** Further properties of the codes and of the table *)

Lemma createCountryCodes_prefix `{Host}
    (country region city ipVersion isp k : jsstring) :
  In k (createCountryCodes country region city (Some ipVersion) (Some isp)) ->
  exists rest,
    k = ipVersion ++ js "-" ++ toStr (getIspCode isp) ++ js "-" ++ rest.
Proof.
  unfold createCountryCodes.
  destruct (getStandardCountryCode country); [|intros []].
  destruct (negb (str_eqb city []) && negb (str_eqb city region));
    cbn [app In]; unfold HYPHEN.
  - intros [<-|[<-|[]]]; eexists; reflexivity.
  - intros [<-|[]]; eexists; reflexivity.
Qed.

Lemma createCountryCodes_length `{Host}
    (country region city : jsstring) (ipVersion isp : option jsstring) :
  (length (createCountryCodes country region city ipVersion isp) <= 2)%nat.
Proof.
  unfold createCountryCodes.
  destruct (getStandardCountryCode country); cbn [length]; [|lia].
  destruct (negb (str_eqb city []) && negb (str_eqb city region));
    cbn [app length]; lia.
Qed.

(** X4.  [createCountryCodes] returns no code exactly when the country is
    not "中国", and never more than two codes: the test on the length of
    the codes that the driver makes after its test on the country never
    skips a line. *)
Theorem createCountryCodes_empty_iff `{Host}
    (country region city : jsstring) (ipVersion isp : option jsstring) :
  (createCountryCodes country region city ipVersion isp = []
   <-> country <> js "中国")
  /\ (length (createCountryCodes country region city ipVersion isp) <= 2)%nat.
Proof.
  unfold createCountryCodes, getStandardCountryCode.
  destruct (str_eqb country (js "中国")) eqn:E.
  - apply str_eqb_eq in E.
    destruct (negb (str_eqb city []) && negb (str_eqb city region));
      cbn [app length]; (split; [split; [discriminate | congruence] | lia]).
  - apply str_eqb_neq in E. cbn [length]. split; [tauto | lia].
Qed.

Lemma createCountryCodes_empty_iff_witness :
  @createCountryCodes RefHost.host (js "日本") (js "东京") (js "东京")
                      None None = [].
Proof.
  refine (proj2 (proj1 (@createCountryCodes_empty_iff RefHost.host
                          (js "日本") (js "东京") (js "东京") None None)) _).
  vm_compute; discriminate.
Defined.

(** Every code that [getIspCode] returns is two upper-case letters. *)
Lemma getIspCode_shape (name : jsstring) :
  exists code, getIspCode name = VStr code /\ isTwoUpper code = true.
Proof.
  rewrite getIspCode_eq.
  destruct (assoc (substring0 2 name) pinyinMap) as [v|] eqn:A.
  - exists v. split; [reflexivity|].
    apply assoc_Some_In in A.
    assert (C : forallb (fun kv : jsstring * jsstring => isTwoUpper (snd kv))
                        pinyinMap = true) by (vm_compute; reflexivity).
    rewrite forallb_forall in C. exact (C _ A).
  - exists (js "UN"). split; reflexivity.
Qed.

(** X5.  Every key of the table that the driver builds has the form
    "4-XX-...": the IP version 4, a carrier code of two upper-case
    letters, and the region part, each introduced by a hyphen, whatever
    the input lines hold. *)
Theorem table_key_format `{Host} (inputFile : jsstring)
    (lines : list jsstring) (entries : entriesMap) (k : jsstring) :
  buildEntries inputFile lines = Ok entries ->
  In k (map fst entries) ->
  exists carrier rest,
    isTwoUpper carrier = true
    /\ k = js "4-" ++ carrier ++ js "-" ++ rest.
Proof.
  intros B I.
  destruct (buildEntries_ok inputFile lines) as (entries' & B' & K & _).
  rewrite B in B'. injection B' as <-.
  rewrite K in I. apply firstSeen_In, in_flat_map in I.
  destruct I as (line & _ & IK). unfold codesOfLine in IK.
  destruct (parseLine inputFile line) as [r|]; [|destruct IK].
  apply createCountryCodes_prefix in IK. destruct IK as [rest ->].
  destruct (getIspCode_shape (isp_domain r)) as (code & -> & S).
  exists code, rest. split; [exact S | reflexivity].
Qed.

Lemma table_key_format_witness :
  exists carrier rest,
    isTwoUpper carrier = true
    /\ js "4-DX-BJ" = js "4-" ++ carrier ++ js "-" ++ rest.
Proof.
  refine (@table_key_format RefHost.host (js "in.txt")
            [js "中国|北京|北京|电信"]
            [(js "4-DX-BJ", exampleCidrs)] (js "4-DX-BJ") _ _).
  - reflexivity.
  - left; reflexivity.
Defined.

Lemma assoc_Map_set (m : entriesMap) (k k' : jsstring) (v : list cidr) :
  assoc k' (Map_set m k v) = if str_eqb k' k then Some v else assoc k' m.
Proof.
  induction m as [|[k0 v0] m IH]; cbn [Map_set assoc]; [reflexivity|].
  destruct (str_eqb k k0) eqn:E; cbn [assoc].
  - apply str_eqb_eq in E; subst k0.
    destruct (str_eqb k' k); reflexivity.
  - rewrite IH. destruct (str_eqb k' k0) eqn:E0; [|reflexivity].
    apply str_eqb_eq in E0; subst k0.
    rewrite str_eqb_sym, E. reflexivity.
Qed.

(** What [addCode] does to the array under each key. *)
Lemma addCode_assoc (m m' : entriesMap) (k k' : jsstring) :
  addCode m k = Ok m' ->
  assoc k' m'
  = if str_eqb k' k
    then Some (match assoc k m with Some a => a | None => [] end
                 ++ exampleCidrs)
    else assoc k' m.
Proof.
  unfold addCode, Map_has, Map_get.
  destruct (assoc k m) as [a|] eqn:A; cbn [negb].
  - rewrite A. intros [= <-]. apply assoc_Map_set.
  - rewrite assoc_Map_set, str_eqb_refl. intros [= <-].
    rewrite !assoc_Map_set. destruct (str_eqb k' k); reflexivity.
Qed.

Lemma occurrences_cons (k c : jsstring) (l : list jsstring) :
  occurrences k (c :: l)
  = if str_eqb k c then S (occurrences k l) else occurrences k l.
Proof. unfold occurrences. cbn [filter]. destruct (str_eqb k c); reflexivity. Qed.

Lemma forEach_addCode_assoc (codes : list jsstring) (m m' : entriesMap)
    (k : jsstring) :
  forEach addCode codes m = Ok m' ->
  assoc k m'
  = match occurrences k codes with
    | O => assoc k m
    | S n => Some (match assoc k m with Some a => a | None => [] end
                     ++ repeat (js "192.168.1.0", 24) (S n))
    end.
Proof.
  revert m; induction codes as [|c codes IH]; intros m; cbn [forEach].
  - intros [= <-]. reflexivity.
  - destruct (addCode m c) as [m1|] eqn:A; cbn [bind]; [|discriminate].
    intros F. rewrite (IH _ F), occurrences_cons.
    rewrite !(addCode_assoc _ _ _ k A).
    destruct (str_eqb k c) eqn:E.
    + apply str_eqb_eq in E; subst c.
      destruct (occurrences k codes); [reflexivity|].
      unfold exampleCidrs. rewrite <- app_assoc. reflexivity.
    + reflexivity.
Qed.

Lemma NoDup_assoc {V} (m : list (jsstring * V)) (k : jsstring) (v : V) :
  NoDup (map fst m) -> In (k, v) m -> assoc k m = Some v.
Proof.
  induction m as [|[k0 v0] m IH]; cbn [map fst assoc]; [intros _ []|].
  intros N I. inversion N as [|? ? N0 N1]; subst.
  destruct I as [[= -> ->]|I].
  - rewrite str_eqb_refl. reflexivity.
  - destruct (str_eqb k k0) eqn:E; [|apply IH; assumption].
    apply str_eqb_eq in E; subst k0. exfalso. apply N0.
    apply in_map_iff. exists (k, v). split; [reflexivity | assumption].
Qed.

(** The array under each code, after the scan. *)
Lemma buildEntries_cidrs `{Host} (inputFile : jsstring) (lines : list jsstring)
    (entries : entriesMap) (k : jsstring) (cidrs : list cidr) :
  buildEntries inputFile lines = Ok entries ->
  In (k, cidrs) entries ->
  (1 <= occurrences k (flat_map (codesOfLine inputFile) lines))%nat
  /\ cidrs = repeat (js "192.168.1.0", 24)
                    (occurrences k (flat_map (codesOfLine inputFile) lines)).
Proof.
  intros B I.
  destruct (buildEntries_ok inputFile lines) as (entries' & B' & K & _).
  rewrite B in B'. injection B' as <-.
  assert (N : NoDup (map fst entries))
    by (rewrite K; apply firstSeen_NoDup).
  pose proof (NoDup_assoc _ _ _ N I) as A.
  unfold buildEntries in B. rewrite forEach_processLine in B.
  rewrite (forEach_addCode_assoc _ _ _ k B) in A. cbn [assoc] in A.
  destruct (occurrences k (flat_map (codesOfLine inputFile) lines));
    [discriminate A|].
  injection A as <-. split; [lia | reflexivity].
Qed.


(** X6.  In the table that the driver builds, the array under a code
    holds the placeholder CIDR 192.168.1.0/24 once for each time the code
    was generated during the scan, and so at least once: lines that give
    the same code merge into one entry. *)
Theorem table_cidrs `{Host} (inputFile : jsstring) (lines : list jsstring)
    (entries : entriesMap) (k : jsstring) (cidrs : list cidr) :
  buildEntries inputFile lines = Ok entries ->
  In (k, cidrs) entries ->
  (1 <= occurrences k (flat_map (codesOfLine inputFile) lines))%nat
  /\ cidrs = repeat (js "192.168.1.0", 24)
                    (occurrences k (flat_map (codesOfLine inputFile) lines)).
Proof. apply buildEntries_cidrs. Qed.

Lemma table_cidrs_witness :
  [(js "192.168.1.0", 24); (js "192.168.1.0", 24)]
  = repeat (js "192.168.1.0", 24)
      (occurrences (js "4-DX-BJ")
         (flat_map (@codesOfLine RefHost.host (js "in.txt"))
                   [js "中国|北京|北京|电信"; js "中国|北京||电信宽带"])).
Proof.
  refine (proj2 (@table_cidrs RefHost.host (js "in.txt")
                   [js "中国|北京|北京|电信"; js "中国|北京||电信宽带"]
                   [(js "4-DX-BJ",
                     [(js "192.168.1.0", 24); (js "192.168.1.0", 24)])]
                   (js "4-DX-BJ") _ _ _)).
  - reflexivity.
  - left; reflexivity.
Defined.

Lemma firstSeen_length (l : list jsstring) :
  (length (firstSeen l) <= length l)%nat.
Proof.
  induction l as [|k l IH]; cbn [firstSeen length]; [lia|].
  pose proof (filter_length_le (fun k' => negb (str_eqb k' k)) (firstSeen l)).
  lia.
Qed.

Lemma codes_length `{Host} (inputFile : jsstring) (lines : list jsstring) :
  (length (flat_map (codesOfLine inputFile) lines) <= 2 * length lines)%nat.
Proof.
  induction lines as [|l lines IH]; cbn [flat_map length]; [lia|].
  rewrite length_app.
  assert (L : (length (codesOfLine inputFile l) <= 2)%nat).
  { unfold codesOfLine. destruct (parseLine inputFile l); cbn [length];
      [apply createCountryCodes_length | lia]. }
  lia.
Qed.

(** X7.  The table never has more than two entries for each line
    scanned, nor more entries than codes were generated. *)
Theorem table_size `{Host} (inputFile : jsstring) (lines : list jsstring)
    (entries : entriesMap) :
  buildEntries inputFile lines = Ok entries ->
  (length entries
   <= length (flat_map (codesOfLine inputFile) lines))%nat
  /\ (length entries <= 2 * length lines)%nat.
Proof.
  intros B.
  destruct (buildEntries_ok inputFile lines) as (entries' & B' & K & _).
  rewrite B in B'. injection B' as <-.
  assert (L : length entries
              = length (firstSeen (flat_map (codesOfLine inputFile) lines)))
    by (rewrite <- K; symmetry; apply length_map).
  pose proof (firstSeen_length (flat_map (codesOfLine inputFile) lines)).
  pose proof (codes_length inputFile lines). lia.
Qed.

Lemma table_size_witness :
  (length [(js "4-DX-BJ", exampleCidrs)] <= 2 * 1)%nat.
Proof.
  exact (proj2 (@table_size RefHost.host (js "in.txt")
                  [js "中国|北京|北京|电信"]
                  [(js "4-DX-BJ", exampleCidrs)] eq_refl)).
Defined.

Lemma getStandardRegionCode_inherited_witness :
  @getStandardRegionCode RefHost.host (js "constructor")
  = VBuiltin (js "constructor").
Proof.
  refine (@getStandardRegionCode_inherited RefHost.host
            (js "constructor") _).
  left; reflexivity.
Defined.

(* ================================================================== *)
(** ** Reading the file back *)

Lemma u32_dec (n : Z) : {u32 n} + {~ u32 n}.
Proof.
  unfold u32. destruct (Z_le_dec 0 n); [|right; lia].
  destruct (Z_lt_dec n (2 ^ 32)); [left; lia | right; lia].
Qed.

Lemma forEach_cons_inv {A S} (body : S -> A -> result S) (x : A)
    (l : list A) (s r : S) :
  forEach body (x :: l) s = Ok r ->
  exists s', body s x = Ok s' /\ forEach body l s' = Ok r.
Proof.
  cbn [forEach]. destruct (body s x) as [s'|]; cbn [bind]; [|discriminate].
  intros F. exists s'. auto.
Qed.

(** An entry is returned only when its lengths fit their fields. *)
Lemma forEach_cidrs_inv (cidrs : list cidr) (buffer b : bytes) :
  forEach (fun buffer (c : cidr) =>
      cidrBuffer <- writeCidr (fst c) (snd c) ;;
      cidrLengthBuffer <-
        writeUInt32LE (Buffer_alloc 4) (jslength cidrBuffer) 0 ;;
      tag2 <- writeUInt8 (Buffer_alloc 1) (Z.lor (Z.shiftl 2 3) 2) ;;
      Ok (Buffer_concat [buffer; tag2; cidrLengthBuffer; cidrBuffer]))
    cidrs buffer = Ok b ->
  Forall (fun c : cidr => u32 (snd c)) cidrs.
Proof.
  revert buffer; induction cidrs as [|c cidrs IH]; intros buffer F;
    [constructor|].
  apply forEach_cons_inv in F. destruct F as (s' & E & F').
  constructor; [|exact (IH _ F')].
  destruct (u32_dec (snd c)) as [U|U]; [exact U|].
  exfalso. cbv beta in E. rewrite (writeCidr_range _ _ U) in E.
  discriminate E.
Qed.

Lemma writeGeoIpEntry_inv (c : jsstring) (cidrs : list cidr) (b : bytes) :
  writeGeoIpEntry c cidrs = Ok b ->
  u32 (jslength (utf8_encode c))
  /\ Forall (fun x : cidr => u32 (snd x)) cidrs.
Proof.
  unfold writeGeoIpEntry, writeString. intros E.
  destruct (u32_dec (jslength (utf8_encode c))) as [U|U].
  - split; [exact U|].
    rewrite (writeUInt32LE_alloc _ U) in E. cbn [bind] in E.
    destruct (writeUInt8 (Buffer_alloc 1) (Z.lor (Z.shiftl 1 3) 2));
      cbn [bind] in E; [|discriminate E].
    destruct (forEach _ cidrs _) as [b1|] eqn:F in E; [|discriminate E].
    exact (forEach_cidrs_inv _ _ _ F).
  - rewrite (writeUInt32LE_range _ _ _ U) in E. discriminate E.
Qed.

Lemma decodeCidrs_field (l0 l1 l2 l3 a b c d p0 p1 p2 p3 : Z)
    (rest : bytes) :
  decodeCidrs (0x12 :: l0 :: l1 :: l2 :: l3 :: a :: b :: c :: d
                    :: p0 :: p1 :: p2 :: p3 :: rest)
  = if readUInt32LE [l0; l1; l2; l3] =? 8 then
      match decodeCidrs rest with
      | Some (cs, rest') =>
        Some (([a; b; c; d], readUInt32LE [p0; p1; p2; p3]) :: cs, rest')
      | None => None
      end
    else None.
Proof. reflexivity. Qed.

(** The fields 2 and 3 of an entry are read back as its CIDRs. *)
Lemma decodeCidrs_fields (cidrs : list cidr) (rest : bytes) :
  Forall (fun x : cidr => u32 (snd x)) cidrs ->
  decodeCidrs (flat_map cidrField cidrs ++ 0x18 :: 0x00 :: rest)
  = Some (map (fun c : cidr => (addressBytes (fst c), snd c)) cidrs, rest).
Proof.
  induction 1 as [|c cidrs U _ IH]; [reflexivity|].
  cbn [flat_map map]. rewrite <- app_assoc. unfold cidrField at 1.
  pose proof (addressBytes_length (fst c)) as L.
  destruct (addressBytes (fst c)) as [|a0 [|a1 [|a2 [|a3 [|a4 r]]]]];
    try discriminate L.
  change (le32 8) with [8; 0; 0; 0].
  assert (P : exists p0 p1 p2 p3, le32 (snd c) = [p0; p1; p2; p3])
    by (unfold le32; eauto).
  destruct P as (p0 & p1 & p2 & p3 & P).
  pose proof (readUInt32LE_le32 _ U) as R. rewrite P in *.
  cbn [app]. rewrite decodeCidrs_field.
  change (readUInt32LE [8; 0; 0; 0] =? 8) with true. cbv iota.
  rewrite IH, R. reflexivity.
Qed.

Lemma decodeEntry_writeGeoIpEntry (c : jsstring) (cidrs : list cidr)
    (b rest : bytes) :
  writeGeoIpEntry c cidrs = Ok b ->
  decodeEntry (b ++ rest)
  = Some (entryData (c, cidrs), rest).
Proof.
  intros E. destruct (writeGeoIpEntry_inv _ _ _ E) as [U F].
  rewrite (writeGeoIpEntry_eq _ _ U F) in E. injection E as <-.
  pose proof (readUInt32LE_le32 _ U) as R. unfold le32 in R |- *.
  cbn [app]. unfold decodeEntry.
  change (0x0A =? 0x0A) with true. cbv iota zeta.
  rewrite R. unfold jslength. rewrite Nat2Z.id.
  rewrite <- !app_assoc.
  match goal with
  | |- context [(?a <? ?b)%nat] =>
    destruct (Nat.ltb_spec a b) as [Lt|_];
      [rewrite length_app in Lt; lia|]
  end.
  rewrite skipn_app, skipn_all, Nat.sub_diag. cbn [skipn app].
  change ([0x18; 0x00] ++ rest) with (0x18 :: 0x00 :: rest).
  rewrite (decodeCidrs_fields _ _ F).
  rewrite firstn_app, firstn_all, Nat.sub_diag. cbn [firstn].
  rewrite app_nil_r. reflexivity.
Qed.

(** X8.  Whatever [writeGeoIpEntry] returns can be read back, also when
    other bytes follow it: the reader finds the UTF-8 bytes of the code,
    the address bytes and prefix length of each CIDR in order, and the
    place where the entry ends; so two entries with the same bytes have
    the same content. *)
Theorem writeGeoIpEntry_roundtrip (c : jsstring) (cidrs : list cidr)
    (b : bytes) :
  writeGeoIpEntry c cidrs = Ok b ->
  (forall rest,
      decodeEntry (b ++ rest)
      = Some (utf8_encode c,
              map (fun x : cidr => (addressBytes (fst x), snd x)) cidrs,
              rest))
  /\ (forall c' cidrs',
        writeGeoIpEntry c' cidrs' = Ok b ->
        utf8_encode c' = utf8_encode c
        /\ map (fun x : cidr => (addressBytes (fst x), snd x)) cidrs'
           = map (fun x : cidr => (addressBytes (fst x), snd x)) cidrs).
Proof.
  intros E. split.
  - intros rest. exact (decodeEntry_writeGeoIpEntry _ _ _ rest E).
  - intros c' cidrs' E'.
    pose proof (decodeEntry_writeGeoIpEntry _ _ _ [] E) as D.
    pose proof (decodeEntry_writeGeoIpEntry _ _ _ [] E') as D'.
    rewrite D in D'. unfold entryData in D'. cbn [fst snd] in D'.
    injection D' as D1 D2. auto.
Qed.

Lemma writeGeoIpEntry_roundtrip_witness :
  decodeEntry [0x0A; 7; 0; 0; 0; 52; 45; 68; 88; 45; 66; 74;
               0x12; 8; 0; 0; 0; 192; 168; 1; 0; 24; 0; 0; 0; 0x18; 0x00;
               0xFF]
  = Some (utf8_encode (js "4-DX-BJ"), [([192; 168; 1; 0], 24)], [0xFF]).
Proof.
  exact (proj1 (writeGeoIpEntry_roundtrip (js "4-DX-BJ") exampleCidrs
                  _ eq_refl) [0xFF]).
Defined.

Lemma decodeEntries_encoded (entries : entriesMap) (encoded : list bytes)
    (rest : bytes) :
  Forall2 (fun (e : jsstring * list cidr) b =>
             writeGeoIpEntry (fst e) (snd e) = Ok b) entries encoded ->
  decodeEntries (length entries) (concat encoded ++ rest)
  = Some (map entryData entries, rest).
Proof.
  induction 1 as [|e b entries encoded E _ IH]; [reflexivity|].
  cbn [length concat decodeEntries map]. rewrite <- app_assoc.
  rewrite (decodeEntry_writeGeoIpEntry _ _ _ _ E).
  rewrite IH. destruct e; reflexivity.
Qed.

Lemma forEach_entries_inv (entries : entriesMap) (fileBuffer file : bytes) :
  forEach (fun fileBuffer (e : jsstring * list cidr) =>
             entryBuffer <- writeGeoIpEntry (fst e) (snd e) ;;
             Ok (Buffer_concat [fileBuffer; entryBuffer]))
          entries fileBuffer = Ok file ->
  exists encoded,
    Forall2 (fun (e : jsstring * list cidr) b =>
               writeGeoIpEntry (fst e) (snd e) = Ok b) entries encoded.
Proof.
  revert fileBuffer; induction entries as [|e entries IH];
    intros fileBuffer F; [exists []; constructor|].
  apply forEach_cons_inv in F. destruct F as (s' & E & F').
  cbv beta in E.
  destruct (writeGeoIpEntry (fst e) (snd e)) as [b|] eqn:W;
    [|discriminate E].
  destruct (IH _ F') as [encoded F2].
  exists (b :: encoded). constructor; assumption.
Qed.

Lemma decodeFile_encodeEntries (entries : entriesMap) (file : bytes) :
  encodeEntries entries = Ok file ->
  decodeFile file = Some (map entryData entries).
Proof.
  intros E. pose proof E as E0. unfold encodeEntries in E.
  destruct (u32_dec (Z.of_nat (length entries))) as [U|U];
    [|rewrite (writeUInt32LE_range _ _ _ U) in E; discriminate E].
  rewrite (writeUInt32LE_alloc _ U) in E. cbn [bind] in E.
  destruct (forEach_entries_inv _ _ _ E) as [encoded F2].
  rewrite (encodeEntries_eq _ _ U F2) in E0. injection E0 as <-.
  pose proof (readUInt32LE_le32 _ U) as R. unfold le32 in R |- *.
  cbn [app]. unfold decodeFile. rewrite R, Nat2Z.id.
  rewrite <- (app_nil_r (concat encoded)).
  rewrite (decodeEntries_encoded _ _ [] F2). reflexivity.
Qed.

(** X9.  Whatever [encodeEntries] returns for a table can be read back:
    the count, then for each entry of the table, in its order, the UTF-8
    bytes of the code and its CIDRs, with nothing left over; so two tables
    that give the same file have the same content. *)
Theorem encodeEntries_roundtrip (entries : entriesMap) (file : bytes) :
  encodeEntries entries = Ok file ->
  decodeFile file = Some (map entryData entries)
  /\ (forall entries', encodeEntries entries' = Ok file ->
                       map entryData entries' = map entryData entries).
Proof.
  intros E. pose proof (decodeFile_encodeEntries _ _ E) as D.
  split; [exact D|].
  intros entries' E'. pose proof (decodeFile_encodeEntries _ _ E') as D'.
  congruence.
Qed.

Lemma encodeEntries_roundtrip_witness :
  decodeFile [1; 0; 0; 0;
              0x0A; 7; 0; 0; 0; 52; 45; 68; 88; 45; 66; 74;
              0x12; 8; 0; 0; 0; 192; 168; 1; 0; 24; 0; 0; 0; 0x18; 0x00]
  = Some [(utf8_encode (js "4-DX-BJ"), [([192; 168; 1; 0], 24)])].
Proof.
  exact (proj1 (encodeEntries_roundtrip [(js "4-DX-BJ", exampleCidrs)]
                  _ eq_refl)).
Defined.

(* ================================================================== *)
(** ** Further properties of the driver *)

(** The two ways in which a run returns. *)
Lemma generateGeoipDat_cases `{Host} (w w' : world)
    (inputFile outputFile : jsstring) :
  generateGeoipDat w inputFile outputFile = Ok w' ->
  (fileAt w inputFile = None
   /\ w' = console_print w
             (ConsoleError (js "Error: Input file " ++ inputFile
                              ++ js " does not exist.")))
  \/ (exists content entries file w1,
        fileAt w inputFile = Some (RegularFile content)
        /\ buildEntries inputFile (nonBlankLines (utf8_decode content))
           = Ok entries
        /\ encodeEntries entries = Ok file
        /\ writeFileSync w outputFile file = Ok w1
        /\ w' = console_print w1
                  (ConsoleLog (js "Generated " ++ outputFile ++ js " with "
                                 ++ decimal (length entries)
                                 ++ js " entries"))).
Proof.
  destruct (fileAt w inputFile) as [[content|]|] eqn:E.
  - rewrite (generateGeoipDat_eq _ _ _ _ E).
    destruct (buildEntries _ _) as [entries|] eqn:B; cbn [bind];
      [|discriminate].
    destruct (encodeEntries entries) as [file|] eqn:C; cbn [bind];
      [|discriminate].
    destruct (writeFileSync w outputFile file) as [w1|] eqn:W; cbn [bind];
      [|discriminate].
    intros [= <-]. right. exists content, entries, file, w1. auto.
  - unfold generateGeoipDat, existsSync, readFileSync. rewrite E.
    cbn [negb bind]. discriminate.
  - unfold generateGeoipDat, existsSync. rewrite E. cbn [negb].
    intros [= <-]. left. auto.
Qed.

(** What a write that returns leaves as it was. *)
Lemma writeFileSync_frame (w w1 : world) (path : jsstring) (data : bytes) :
  writeFileSync w path data = Ok w1 ->
  resolve w1 = resolve w
  /\ writable w1 = writable w
  /\ console w1 = console w
  /\ writable w (resolve w path) = true
  /\ (forall id, nodes w1 id
                 = if str_eqb id (resolve w path)
                   then Some (RegularFile data) else nodes w id).
Proof.
  unfold writeFileSync.
  destruct (writable w (resolve w path)) eqn:W; [|discriminate].
  intros [= <-]. cbn [resolve writable console nodes]. auto.
Qed.

(** X10.  A run that returns has touched no file but the one that the
    output path names, and has printed exactly one message; when the
    input file exists the output path names a file afterwards, also when
    it names the input file itself. *)
Theorem generateGeoipDat_frame `{Host} (w w' : world)
    (inputFile outputFile : jsstring) :
  generateGeoipDat w inputFile outputFile = Ok w' ->
  (forall id, id <> resolve w outputFile -> nodes w' id = nodes w id)
  /\ (forall p, resolve w p <> resolve w outputFile ->
                fileAt w' p = fileAt w p)
  /\ (exists m, console w' = console w ++ [m])
  /\ (fileAt w inputFile <> None -> fileAt w' outputFile <> None).
Proof.
  intros G. apply generateGeoipDat_cases in G.
  destruct G as [[E ->]|(content & entries & file & w1 & E & _ & _ & W & ->)].
  - unfold fileAt. cbn [console_print nodes resolve console].
    split; [reflexivity|]. split; [reflexivity|]. split; [eauto|].
    intros N. exfalso. apply N. exact E.
  - pose proof (writeFileSync_read _ _ _ _ W) as Rd.
    destruct (writeFileSync_frame _ _ _ _ W) as (Rs & _ & Cs & _ & Ns).
    assert (Fr : forall id, id <> resolve w outputFile ->
                            nodes w1 id = nodes w id).
    { intros id N. rewrite Ns. apply str_eqb_neq in N. rewrite N.
      reflexivity. }
    split; [exact Fr|]. split; [|split].
    + intros p N. rewrite fileAt_console_print. unfold fileAt.
      rewrite Rs. apply Fr. exact N.
    + cbn [console_print console]. rewrite Cs. eauto.
    + intros _. rewrite fileAt_console_print, Rd. discriminate.
Qed.

Lemma generateGeoipDat_frame_witness :
  let w := RefHost.disk (js "in.txt")
                        (utf8_encode (js "中国|北京|北京|电信")) true in
  exists w',
    @generateGeoipDat RefHost.host w (js "in.txt") (js "geoip.dat") = Ok w'
    /\ fileAt w' (js "in.txt") = fileAt w (js "in.txt").
Proof.
  intros w.
  destruct (@generateGeoipDat RefHost.host w (js "in.txt") (js "geoip.dat"))
    as [w'|e] eqn:G.
  - exists w'. split; [reflexivity|].
    refine (proj1 (proj2 (@generateGeoipDat_frame RefHost.host w w'
                            (js "in.txt") (js "geoip.dat") G))
                  (js "in.txt") _).
    vm_compute; discriminate.
  - vm_compute in G. discriminate G.
Defined.



Lemma entries_as_table (entries : entriesMap) (g : jsstring -> list cidr) :
  (forall k v, In (k, v) entries -> v = g k) ->
  entries = map (fun k => (k, g k)) (map fst entries).
Proof.
  induction entries as [|[k v] entries IH]; intros A; [reflexivity|].
  cbn [map fst]. rewrite <- (A k v) by (left; reflexivity).
  rewrite <- IH by (intros; apply A; right; assumption). reflexivity.
Qed.

(** X12.  The file that a run writes, read back, lists the generated codes
    in the order in which the scan first met them, each as its UTF-8
    bytes, and under each code the CIDR 192.168.1.0/24 as many times as the
    code was generated: no address of the input ever reaches the file. *)
Theorem generateGeoipDat_readback `{Host} (w w' : world)
    (inputFile outputFile : jsstring) (content : bytes) :
  fileAt w inputFile = Some (RegularFile content) ->
  generateGeoipDat w inputFile outputFile = Ok w' ->
  exists file,
    fileAt w' outputFile = Some (RegularFile file)
    /\ decodeFile file
       = Some (map (fun k =>
                      (utf8_encode k,
                       repeat ([192; 168; 1; 0], 24)
                         (occurrences k
                            (flat_map (codesOfLine inputFile)
                               (nonBlankLines (utf8_decode content))))))
                   (firstSeen
                      (flat_map (codesOfLine inputFile)
                         (nonBlankLines (utf8_decode content))))).
Proof.
  intros E G. apply generateGeoipDat_cases in G.
  destruct G as [[E0 _]|(content' & entries & file & w1 & E' & B & C & W & ->)];
    [congruence|].
  rewrite E in E'. injection E' as <-.
  exists file. split.
  - rewrite fileAt_console_print. exact (writeFileSync_read _ _ _ _ W).
  - rewrite (decodeFile_encodeEntries _ _ C). f_equal.
    destruct (buildEntries_ok inputFile (nonBlankLines (utf8_decode content)))
      as (entries' & B' & K & _).
    rewrite B in B'. injection B' as <-.
    rewrite (entries_as_table entries
               (fun k => repeat (js "192.168.1.0", 24)
                           (occurrences k
                              (flat_map (codesOfLine inputFile)
                                 (nonBlankLines (utf8_decode content))))))
      by (intros k v I; exact (proj2 (buildEntries_cidrs _ _ _ _ _ B I))).
    rewrite K, map_map. apply map_ext. intros k.
    unfold entryData. cbn [fst snd]. rewrite map_repeat. reflexivity.
Qed.

Lemma generateGeoipDat_readback_witness :
  let content := utf8_encode (js "中国|北京|北京|电信") in
  let w := RefHost.disk (js "in.txt") content true in
  exists w' file,
    @generateGeoipDat RefHost.host w (js "in.txt") (js "geoip.dat") = Ok w'
    /\ fileAt w' (js "geoip.dat") = Some (RegularFile file)
    /\ decodeFile file
       = Some [(utf8_encode (js "4-DX-BJ"), [([192; 168; 1; 0], 24)])].
Proof.
  intros content w.
  destruct (@generateGeoipDat RefHost.host w (js "in.txt") (js "geoip.dat"))
    as [w'|e] eqn:G.
  - destruct (@generateGeoipDat_readback RefHost.host w w' (js "in.txt")
                (js "geoip.dat") content eq_refl G) as (file & F & D).
    exists w', file. split; [reflexivity|]. split; [exact F|].
    rewrite D. vm_compute. reflexivity.
  - vm_compute in G. discriminate G.
Defined.

(** X13.  The keys of the table only grow at the end: the table of a scan
    that goes on over more lines begins with the keys of the table of the
    lines scanned so far, in the same order. *)
Theorem table_keys_append `{Host} (inputFile : jsstring)
    (lines more : list jsstring) (entries entries' : entriesMap) :
  buildEntries inputFile lines = Ok entries ->
  buildEntries inputFile (lines ++ more) = Ok entries' ->
  exists added, map fst entries' = map fst entries ++ added.
Proof.
  intros B B'.
  destruct (buildEntries_ok inputFile lines) as (e1 & B1 & K1 & _).
  destruct (buildEntries_ok inputFile (lines ++ more)) as (e2 & B2 & K2 & _).
  rewrite B in B1. injection B1 as <-.
  rewrite B' in B2. injection B2 as <-.
  rewrite K2, K1, flat_map_app, <- !fold_seeKey_nil, fold_left_app.
  rewrite (fold_seeKey (flat_map (codesOfLine inputFile) more)).
  eexists. reflexivity.
Qed.

Lemma table_keys_append_witness :
  exists added,
    map fst [(js "4-DX-BJ", exampleCidrs); (js "4-LT-GD", exampleCidrs)]
    = map fst [(js "4-DX-BJ", exampleCidrs)] ++ added.
Proof.
  refine (@table_keys_append RefHost.host (js "in.txt")
            [js "中国|北京|北京|电信"] [js "中国|广东||联通"] _ _ _ _);
    reflexivity.
Defined.

(** X14.  [main] takes the input path from the first argument after the
    script name and the output path from the second; an argument that is
    missing or empty is replaced by "qqwry.ipdb", respectively
    "geoip.dat", and further arguments are ignored. *)
Theorem main_defaults `{Host} (w : world) (argv : list jsstring) :
  ((length argv <= 2)%nat ->
     main w argv = generateGeoipDat w (js "qqwry.ipdb") (js "geoip.dat"))
  /\ (forall node script input output rest,
        argv = node :: script :: input :: output :: rest ->
        main w argv
        = generateGeoipDat w
            (if str_eqb input [] then js "qqwry.ipdb" else input)
            (if str_eqb output [] then js "geoip.dat" else output))
  /\ (forall node script input,
        argv = [node; script; input] ->
        main w argv
        = generateGeoipDat w
            (if str_eqb input [] then js "qqwry.ipdb" else input)
            (js "geoip.dat")).
Proof.
  split; [|split].
  - intros L. destruct argv as [|a [|b [|c r]]]; try reflexivity.
    cbn [length] in L. lia.
  - intros node script input output rest ->. unfold main.
    cbn [skipn part nth]. destruct input, output; reflexivity.
  - intros node script input ->. unfold main.
    cbn [skipn part nth]. destruct input; reflexivity.
Qed.

Lemma main_defaults_witness :
  @main RefHost.host RefHost.emptyDisk [js "node"; js "gen.js"]
  = @generateGeoipDat RefHost.host RefHost.emptyDisk
                      (js "qqwry.ipdb") (js "geoip.dat").
Proof.
  refine (proj1 (@main_defaults RefHost.host RefHost.emptyDisk
                   [js "node"; js "gen.js"]) _).
  cbn [length]. lia.
Defined.

(* ================================================================== *)
(** ** Errors of the encoder *)

Lemma writeUInt32LE_throws (buf : bytes) (n : Z) (off : nat) (e : jserror) :
  writeUInt32LE buf n off = Throw e -> e = RangeError.
Proof.
  unfold writeUInt32LE.
  destruct ((n <? 0) || (0xFFFFFFFF <? n)); [congruence|].
  destruct (length buf <? off + 4)%nat; [congruence | discriminate].
Qed.

Lemma writeUInt8_throws (buf : bytes) (n : Z) (e : jserror) :
  writeUInt8 buf n = Throw e -> e = RangeError.
Proof.
  unfold writeUInt8.
  destruct ((n <? 0) || (0xFF <? n)); [congruence|].
  destruct (length buf <? 1)%nat; [congruence | discriminate].
Qed.

Lemma writeCidr_throws (ip : jsstring) (p : Z) (e : jserror) :
  writeCidr ip p = Throw e -> e = RangeError.
Proof.
  unfold writeCidr.
  destruct (writeUInt32LE (Buffer_alloc 4) p 0) eqn:W; cbn [bind];
    [discriminate|].
  intros [= <-]. exact (writeUInt32LE_throws _ _ _ _ W).
Qed.

Lemma forEach_throws {A S} (body : S -> A -> result S) (l : list A) (s : S)
    (e : jserror) :
  (forall s x e', body s x = Throw e' -> e' = RangeError) ->
  forEach body l s = Throw e -> e = RangeError.
Proof.
  intros Hb. revert s; induction l as [|x l IH]; intros s; cbn [forEach];
    [discriminate|].
  destruct (body s x) as [s'|e'] eqn:B; cbn [bind].
  - apply IH.
  - intros [= <-]. exact (Hb _ _ _ B).
Qed.

Lemma writeGeoIpEntry_throws (c : jsstring) (cidrs : list cidr)
    (e : jserror) :
  writeGeoIpEntry c cidrs = Throw e -> e = RangeError.
Proof.
  unfold writeGeoIpEntry, writeString.
  destruct (writeUInt32LE (Buffer_alloc 4) _ 0) eqn:W; cbn [bind];
    [|intros [= <-]; exact (writeUInt32LE_throws _ _ _ _ W)].
  destruct (writeUInt8 (Buffer_alloc 1) (Z.lor (Z.shiftl 1 3) 2)) eqn:T1;
    cbn [bind]; [|intros [= <-]; exact (writeUInt8_throws _ _ _ T1)].
  destruct (forEach _ cidrs _) as [b1|e1] eqn:F; cbn [bind].
  - destruct (writeUInt8 (Buffer_alloc 1) (Z.lor (Z.shiftl 3 3) 0)) eqn:T3;
      cbn [bind]; [|intros [= <-]; exact (writeUInt8_throws _ _ _ T3)].
    destruct (writeUInt8 (Buffer_alloc 1) 0) eqn:T0; cbn [bind];
      [discriminate|intros [= <-]; exact (writeUInt8_throws _ _ _ T0)].
  - intros [= <-]. revert F. apply forEach_throws.
    intros s x e'. cbv beta.
    destruct (writeCidr (fst x) (snd x)) as [cb|ec] eqn:C; cbn [bind];
      [|intros [= <-]; exact (writeCidr_throws _ _ _ C)].
    destruct (writeUInt32LE (Buffer_alloc 4) (jslength cb) 0)
      as [lb|el] eqn:L; cbn [bind];
      [|intros [= <-]; exact (writeUInt32LE_throws _ _ _ _ L)].
    destruct (writeUInt8 (Buffer_alloc 1) (Z.lor (Z.shiftl 2 3) 2))
      as [tb|et] eqn:T2; cbn [bind]; [discriminate|].
    intros [= <-]. exact (writeUInt8_throws _ _ _ T2).
Qed.

(** X16.  [writeGeoIpEntry] returns bytes exactly when the UTF-8 length of
    the code and every prefix length are unsigned 32-bit numbers; one
    prefix length outside that range, anywhere in the list, makes the whole
    call throw a RangeError, and no part of the entry is returned. *)
Theorem writeGeoIpEntry_fails (c : jsstring) (cidrs : list cidr) :
  ((exists b, writeGeoIpEntry c cidrs = Ok b)
   <-> u32 (jslength (utf8_encode c))
       /\ Forall (fun x : cidr => u32 (snd x)) cidrs)
  /\ (Exists (fun x : cidr => ~ u32 (snd x)) cidrs ->
      writeGeoIpEntry c cidrs = Throw RangeError).
Proof.
  split.
  - split.
    + intros [b E]. exact (writeGeoIpEntry_inv _ _ _ E).
    + intros [U F]. eexists. apply writeGeoIpEntry_eq; assumption.
  - intros X. destruct (writeGeoIpEntry c cidrs) as [b|e] eqn:E.
    + exfalso. destruct (writeGeoIpEntry_inv _ _ _ E) as [_ F].
      apply Exists_exists in X. destruct X as (x & I & N).
      rewrite Forall_forall in F. exact (N (F _ I)).
    + rewrite (writeGeoIpEntry_throws _ _ _ E). reflexivity.
Qed.

Lemma writeGeoIpEntry_fails_witness :
  writeGeoIpEntry (js "4-DX-BJ")
                  [(js "10.0.0.0", 8); (js "10.0.0.0", 2 ^ 32)]
  = Throw RangeError.
Proof.
  refine (proj2 (writeGeoIpEntry_fails (js "4-DX-BJ")
                   [(js "10.0.0.0", 8); (js "10.0.0.0", 2 ^ 32)]) _).
  right. left. unfold u32. cbn [snd]. lia.
Defined.
